(** * machineid: identity resolution, caching, hashing and hardware fallback

    A shallow embedding of the Go package [machineid] (machineid.go,
    id_unknown.go) and the properties of its resolver, hasher and
    MAC-address fallback.

    Conventions of the embedding:
    - a Go [string] is a [string] (a sequence of bytes, one [ascii] each);
      a Go [[]byte] is a [list byte];
    - a Go [(T, error)] result is a pair [T * option error], [None] being
      the nil error: both components exist at once, as in Go;
    - the package-level variables [cachedRawID], [cachedPrefix] and
      [initialized] form the record [Cache]; the swappable function
      variables [netInterfaces], [getEnvTypeFunc] and [getMachineIDFunc]
      are the fields of [Hooks], each a function of an abstract world state
      (the operating system, or the closure state of a test double);
    - the mutex [mu] serialises [loadInfo]; the embedding is the sequential
      semantics of one call at a time. *)

From Stdlib Require Import Init.Byte Strings.Byte Strings.Ascii Strings.String.
From Stdlib Require Import Lists.List NArith.NArith ZArith.ZArith Arith.Arith Bool.Bool.
From Stdlib Require Import Sorting.Permutation Sorting.Sorted micromega.Lia.
Import ListNotations.

Local Open Scope string_scope.
Local Open Scope list_scope.

(* ================================================================= *)
(** ** Errors *)

(** The error values that reach the package: the sentinels of package [os],
    [errors.New] values, [syscall.Errno] numbers and the wrappers that
    [os.ReadFile] and [fmt.Errorf] build around them. *)
Inductive error : Type :=
| ErrNotExist
| ErrExist
| ErrPermission
| errorString (s : string)
| Errno (e : N)
| PathError (Op Path : string) (Err : error)
| wrapError (msg : string) (err : error).

Definition error_eq_dec (a b : error) : {a = b} + {a <> b}.
Proof.
  decide equality; try apply string_dec; apply N.eq_dec.
Defined.

Definition error_eqb (a b : error) : bool :=
  if error_eq_dec a b then true else false.

Definition ENOENT : N := 2.
Definition EPERM : N := 1.
Definition EACCES : N := 13.
Definition EEXIST : N := 17.
Definition ENOTEMPTY : N := 39.

(** The [Is] method of [syscall.Errno]; no other error type here has one. *)
Definition error_Is_method (e target : error) : bool :=
  match e, target with
  | Errno n, ErrPermission => N.eqb n EACCES || N.eqb n EPERM
  | Errno n, ErrExist => N.eqb n EEXIST || N.eqb n ENOTEMPTY
  | Errno n, ErrNotExist => N.eqb n ENOENT
  | _, _ => false
  end.

(** [errors.Is] on a non-nil error: walk the [Unwrap] chain. *)
Fixpoint errors_Is_chain (e target : error) : bool :=
  error_eqb e target || error_Is_method e target ||
  match e with
  | PathError _ _ inner => errors_Is_chain inner target
  | wrapError _ inner => errors_Is_chain inner target
  | _ => false
  end.

(** [errors.Is(err, target)] with a non-nil target. *)
Definition errors_Is (err : option error) (target : error) : bool :=
  match err with
  | None => false
  | Some e => errors_Is_chain e target
  end.

Definition errors_New (s : string) : error := errorString s.

Definition is_nil (err : option error) : bool :=
  match err with None => true | Some _ => false end.

(* ================================================================= *)
(** ** Strings: the functions of package [strings] the code calls *)

Definition string_eqb (a b : string) : bool := String.eqb a b.

(** [s == ""]. *)
Definition is_empty (s : string) : bool :=
  match s with EmptyString => true | String _ _ => false end.

(** The six ASCII white-space bytes: tab, line feed, vertical tab, form
    feed, carriage return (9 to 13) and space (32). *)
Definition isAsciiSpace (c : ascii) : bool :=
  let n := N_of_ascii c in
  (N.leb 9 n && N.leb n 13) || N.eqb n 32.

(** The two-byte UTF-8 encodings of white space: U+0085 (C2 85) and
    U+00A0 (C2 A0). *)
Definition isSpace2 (c0 c1 : ascii) : bool :=
  let a := N_of_ascii c0 in
  let b := N_of_ascii c1 in
  N.eqb a 194 && (N.eqb b 133 || N.eqb b 160).

(** The three-byte UTF-8 encodings of white space: U+1680 (E1 9A 80),
    U+2000 to U+200A (E2 80 80 to E2 80 8A), U+2028, U+2029 and U+202F
    (E2 80 A8, E2 80 A9, E2 80 AF), U+205F (E2 81 9F) and U+3000
    (E3 80 80). *)
Definition isSpace3 (c0 c1 c2 : ascii) : bool :=
  let a := N_of_ascii c0 in
  let b := N_of_ascii c1 in
  let c := N_of_ascii c2 in
  (N.eqb a 225 && N.eqb b 154 && N.eqb c 128)
  || (N.eqb a 226 && N.eqb b 128
      && ((N.leb 128 c && N.leb c 138)
          || N.eqb c 168 || N.eqb c 169 || N.eqb c 175))
  || (N.eqb a 226 && N.eqb b 129 && N.eqb c 159)
  || (N.eqb a 227 && N.eqb b 128 && N.eqb c 128).

(** Remove from the head of [s] every encoded rune recognised by [p1]
    (one byte), [p2] (two bytes) or [p3] (three bytes), stopping at the
    first rune that is none of them. *)
Fixpoint stripRunes (p1 : ascii -> bool) (p2 : ascii -> ascii -> bool)
    (p3 : ascii -> ascii -> ascii -> bool) (s : string) : string :=
  match s with
  | EmptyString => s
  | String c0 s1 =>
      if p1 c0 then stripRunes p1 p2 p3 s1 else
      match s1 with
      | EmptyString => s
      | String c1 s2 =>
          if p2 c0 c1 then stripRunes p1 p2 p3 s2 else
          match s2 with
          | EmptyString => s
          | String c2 s3 =>
              if p3 c0 c1 c2 then stripRunes p1 p2 p3 s3 else s
          end
      end
  end.

Fixpoint string_rev_append (s acc : string) : string :=
  match s with
  | EmptyString => acc
  | String c r => string_rev_append r (String c acc)
  end.

Definition string_rev (s : string) : string := string_rev_append s "".

(** [strings.TrimLeftFunc(s, unicode.IsSpace)]: a decoded rune is white
    space exactly when the bytes at the head are the (shortest-form) UTF-8
    encoding of a white-space code point; anything else, an invalid byte
    included, stops the scan. *)
Definition TrimLeftSpace (s : string) : string :=
  stripRunes isAsciiSpace isSpace2 isSpace3 s.

(** [strings.TrimRightFunc(s, unicode.IsSpace)]: the same scan from the
    end, which reads each encoding backwards. *)
Definition TrimRightSpace (s : string) : string :=
  string_rev
    (stripRunes isAsciiSpace (fun cl cf => isSpace2 cf cl)
       (fun cl cm cf => isSpace3 cf cm cl) (string_rev s)).

(** [strings.TrimSpace]: all leading and trailing white space removed, as
    defined by Unicode. *)
Definition TrimSpace (s : string) : string :=
  TrimRightSpace (TrimLeftSpace s).

Fixpoint HasPrefix (s prefix : string) : bool :=
  match prefix, s with
  | EmptyString, _ => true
  | String p ps, String c cs => Ascii.eqb c p && HasPrefix cs ps
  | String _ _, EmptyString => false
  end.

(** [strings.Contains(s, substr)]. *)
Fixpoint Contains (s substr : string) : bool :=
  HasPrefix s substr ||
  match s with
  | EmptyString => false
  | String _ r => Contains r substr
  end.

Fixpoint isASCII (s : string) : bool :=
  match s with
  | EmptyString => true
  | String c r => N.ltb (N_of_ascii c) 128 && isASCII r
  end.

Definition asciiLower (c : ascii) : ascii :=
  let n := N_of_ascii c in
  if N.leb 65 n && N.leb n 90 then ascii_of_N (n + 32) else c.

Fixpoint mapBytes (f : ascii -> ascii) (s : string) : string :=
  match s with
  | EmptyString => EmptyString
  | String c r => String (f c) (mapBytes f r)
  end.

(** [strings.ToLower]: a string of ASCII bytes is lowered byte by byte;
    any other string goes through [strings.Map(unicode.ToLower, s)], whose
    case tables belong to the Go runtime and are the parameter
    [unicodeLower]. *)
Definition ToLower (unicodeLower : string -> string) (s : string) : string :=
  if isASCII s then mapBytes asciiLower s else unicodeLower s.

(** [strings.Join(elems, sep)]. *)
Fixpoint Join (elems : list string) (sep : string) : string :=
  match elems with
  | [] => ""
  | [e] => e
  | e :: rest => e ++ sep ++ Join rest sep
  end.

(** Go's [<] on strings: byte-wise lexicographic order. *)
Fixpoint string_ltb (a b : string) : bool :=
  match a, b with
  | _, EmptyString => false
  | EmptyString, String _ _ => true
  | String x xs, String y ys =>
      N.ltb (N_of_ascii x) (N_of_ascii y)
      || (N.eqb (N_of_ascii x) (N_of_ascii y) && string_ltb xs ys)
  end.

Fixpoint insertSorted (x : string) (l : list string) : list string :=
  match l with
  | [] => [x]
  | y :: r => if string_ltb y x then y :: insertSorted x r else x :: l
  end.

(** [sort.Strings]: the increasing rearrangement of the slice.  Strings are
    values, so every sorting algorithm yields this same list. *)
Fixpoint sort_Strings (l : list string) : list string :=
  match l with
  | [] => []
  | x :: r => insertSorted x (sort_Strings r)
  end.

(* ================================================================= *)
(** ** [encoding/hex] and [net.HardwareAddr] *)

Definition hextable : string := "0123456789abcdef".

Definition hexDigit (n : N) : ascii :=
  match String.get (N.to_nat n) hextable with
  | Some c => c
  | None => "0"%char
  end.

(** [hex.EncodeToString]. *)
Fixpoint hex_EncodeToString (src : list byte) : string :=
  match src with
  | [] => ""
  | v :: r =>
      String (hexDigit (N.shiftr (Byte.to_N v) 4))
        (String (hexDigit (N.land (Byte.to_N v) 15)) (hex_EncodeToString r))
  end.

Fixpoint HardwareAddr_loop (first : bool) (a : list byte) : string :=
  match a with
  | [] => ""
  | b :: r =>
      (if first then "" else ":") ++
      String (hexDigit (N.shiftr (Byte.to_N b) 4))
        (String (hexDigit (N.land (Byte.to_N b) 15)) (HardwareAddr_loop false r))
  end.

(** [net.HardwareAddr.String]: lowercase hex pairs separated by colons,
    the empty string for an empty address. *)
Definition HardwareAddr_String (a : list byte) : string :=
  HardwareAddr_loop true a.

(* ================================================================= *)
(** ** [crypto/sha256] *)

(** SHA-256 as FIPS 180-4 defines it and Go's [crypto/sha256] computes it:
    32-bit words are numbers below [2^32], with the wrap-around of [uint32]
    arithmetic written out. *)
Module SHA256.

Local Open Scope N_scope.

Definition mask32 : N := 4294967295.

Definition trunc32 (x : N) : N := N.land x mask32.

Definition add32 (x y : N) : N := trunc32 (x + y).

(** [bits.RotateLeft32(x, -k)]. *)
Definition rotr (k x : N) : N :=
  N.lor (N.shiftr x k) (trunc32 (N.shiftl x (32 - k))).

(** [^x] on a [uint32]. *)
Definition not32 (x : N) : N := N.lxor x mask32.

(** The round constants [_K], eight per row. *)
Definition K : list N :=
  concat
    [ [0x428a2f98; 0x71374491; 0xb5c0fbcf; 0xe9b5dba5; 0x3956c25b; 0x59f111f1; 0x923f82a4; 0xab1c5ed5];
      [0xd807aa98; 0x12835b01; 0x243185be; 0x550c7dc3; 0x72be5d74; 0x80deb1fe; 0x9bdc06a7; 0xc19bf174];
      [0xe49b69c1; 0xefbe4786; 0x0fc19dc6; 0x240ca1cc; 0x2de92c6f; 0x4a7484aa; 0x5cb0a9dc; 0x76f988da];
      [0x983e5152; 0xa831c66d; 0xb00327c8; 0xbf597fc7; 0xc6e00bf3; 0xd5a79147; 0x06ca6351; 0x14292967];
      [0x27b70a85; 0x2e1b2138; 0x4d2c6dfc; 0x53380d13; 0x650a7354; 0x766a0abb; 0x81c2c92e; 0x92722c85];
      [0xa2bfe8a1; 0xa81a664b; 0xc24b8b70; 0xc76c51a3; 0xd192e819; 0xd6990624; 0xf40e3585; 0x106aa070];
      [0x19a4c116; 0x1e376c08; 0x2748774c; 0x34b0bcb5; 0x391c0cb3; 0x4ed8aa4a; 0x5b9cca4f; 0x682e6ff3];
      [0x748f82ee; 0x78a5636f; 0x84c87814; 0x8cc70208; 0x90befffa; 0xa4506ceb; 0xbef9a3f7; 0xc67178f2] ].

(** The eight chaining words [h0 .. h7] of a digest. *)
Record digest : Type := mkDigest {
  h0 : N; h1 : N; h2 : N; h3 : N; h4 : N; h5 : N; h6 : N; h7 : N
}.

Definition init : digest :=
  mkDigest 0x6a09e667 0xbb67ae85 0x3c6ef372 0xa54ff53a
           0x510e527f 0x9b05688c 0x1f83d9ab 0x5be0cd19.

(** Big-endian words of a block: [w[i] = p[4i]<<24 | ... | p[4i+3]]. *)
Fixpoint words_of_bytes (p : list N) : list N :=
  match p with
  | b0 :: b1 :: b2 :: b3 :: r =>
      N.lor (N.lor (N.lor (N.shiftl b0 24) (N.shiftl b1 16)) (N.shiftl b2 8)) b3
      :: words_of_bytes r
  | _ => []
  end.

(** The message schedule, latest word first: [rw] holds [w[i-1], w[i-2],
    ...]; each step appends [w[i] = t1 + w[i-7] + t2 + w[i-16]]. *)
Fixpoint schedule (n : nat) (rw : list N) : list N :=
  match n with
  | O => rw
  | S n' =>
      let v1 := nth 1 rw 0 in
      let t1 := N.lxor (N.lxor (rotr 17 v1) (rotr 19 v1)) (N.shiftr v1 10) in
      let v2 := nth 14 rw 0 in
      let t2 := N.lxor (N.lxor (rotr 7 v2) (rotr 18 v2)) (N.shiftr v2 3) in
      schedule n'
        (add32 (add32 (add32 t1 (nth 6 rw 0)) t2) (nth 15 rw 0) :: rw)
  end.

(** One round of the compression loop on the working variables. *)
Definition round (s : digest) (k w : N) : digest :=
  let '(mkDigest a b c d e f g h) := s in
  let t1 :=
    add32 (add32 (add32 (add32 h
      (N.lxor (N.lxor (rotr 6 e) (rotr 11 e)) (rotr 25 e)))
      (N.lxor (N.land e f) (N.land (not32 e) g))) k) w in
  let t2 :=
    add32 (N.lxor (N.lxor (rotr 2 a) (rotr 13 a)) (rotr 22 a))
      (N.lxor (N.lxor (N.land a b) (N.land a c)) (N.land b c)) in
  mkDigest (add32 t1 t2) a b c (add32 d t1) e f g.

Fixpoint rounds (s : digest) (ks ws : list N) : digest :=
  match ks, ws with
  | k :: ks', w :: ws' => rounds (round s k w) ks' ws'
  | _, _ => s
  end.

(** [blockGeneric] on one 64-byte chunk. *)
Definition block (dig : digest) (p : list N) : digest :=
  let w := rev (schedule 48 (rev (words_of_bytes p))) in
  let s := rounds dig K w in
  mkDigest (add32 (h0 dig) (h0 s)) (add32 (h1 dig) (h1 s))
           (add32 (h2 dig) (h2 s)) (add32 (h3 dig) (h3 s))
           (add32 (h4 dig) (h4 s)) (add32 (h5 dig) (h5 s))
           (add32 (h6 dig) (h6 s)) (add32 (h7 dig) (h7 s)).

Fixpoint blocks (n : nat) (dig : digest) (p : list N) : digest :=
  match n with
  | O => dig
  | S n' => blocks n' (block dig (firstn 64 p)) (skipn 64 p)
  end.

(** Big-endian bytes of the low [8 * n] bits of [x], most significant
    first. *)
Fixpoint be_bytes (n : nat) (x : N) : list N :=
  match n with
  | O => []
  | S n' => N.land (N.shiftr x (8 * N.of_nat n')) 255 :: be_bytes n' x
  end.

(** The padding of [checkSum]: a [0x80] byte, zero bytes up to 56 modulo
    64, and the bit length as a big-endian 64-bit number. *)
Definition pad (msg : list N) : list N :=
  let len := length msg in
  msg ++ 128 :: repeat 0 ((119 - Nat.modulo len 64) mod 64)%nat
      ++ be_bytes 8 (N.land (8 * N.of_nat len) 18446744073709551615).

Definition byte_of_N (n : N) : byte :=
  match Byte.of_N (N.land n 255) with
  | Some b => b
  | None => x00
  end.

Definition word_bytes (x : N) : list byte := map byte_of_N (be_bytes 4 x).

(** [sha256.Sum256(data)], equally [h := sha256.New(); h.Write(data);
    h.Sum(nil)]: the 32 bytes of the digest. *)
Definition Sum256 (data : list byte) : list byte :=
  let p := pad (map Byte.to_N data) in
  let d := blocks (Nat.div (length p) 64) init p in
  word_bytes (h0 d) ++ word_bytes (h1 d) ++ word_bytes (h2 d)
  ++ word_bytes (h3 d) ++ word_bytes (h4 d) ++ word_bytes (h5 d)
  ++ word_bytes (h6 d) ++ word_bytes (h7 d).

End SHA256.

(** A [hash.Hash] of [crypto/sha256] holds the bytes written so far;
    its [Write] never returns an error. *)
Definition sha256_New : list byte := [].

Definition hash_Write (h p : list byte) : list byte * (nat * option error) :=
  (h ++ p, (length p, None)).

Definition hash_Sum (h b : list byte) : list byte := b ++ SHA256.Sum256 h.

(* ================================================================= *)
(** ** machineid.go: [protect] *)

(** [protect] hashes the input string using SHA256. *)
Definition protect (s : string) : string * option error :=
  let s := TrimSpace s in
  if is_empty s then ("", Some (errors_New "empty machine id"))
  else
    let hash := sha256_New in
    let '(hash, (_, err)) := hash_Write hash (list_byte_of_string s) in
    match err with
    | Some e => ("", Some e)
    | None => (hex_EncodeToString (hash_Sum hash []), None)
    end.

(* ================================================================= *)
(** ** Network interfaces *)

(** [net.Interface]. *)
Record Interface : Type := mkInterface {
  Index : Z;
  MTU : Z;
  Name : string;
  HardwareAddr : list byte;
  Flags : N
}.

Definition FlagUp : N := 1.
Definition FlagBroadcast : N := 2.
Definition FlagLoopback : N := 4.
Definition FlagPointToPoint : N := 8.
Definition FlagMulticast : N := 16.
Definition FlagRunning : N := 32.

(* ================================================================= *)
(** ** The package state and its hooks *)

(** The package-level variables [cachedRawID], [cachedPrefix] and
    [initialized]. *)
Record Cache : Type := mkCache {
  cachedRawID : string;
  cachedPrefix : string;
  initialized : bool
}.

(** The zero values the package starts with. *)
Definition emptyCache : Cache := mkCache "" "" false.

(** A call to one of the three function variables. *)
Inductive Call : Type := CallEnvType | CallMachineID | CallNetInterfaces.

Definition Call_eq_dec (a b : Call) : {a = b} + {a <> b}.
Proof. decide equality. Defined.

(** The function variables [netInterfaces], [getEnvTypeFunc] and
    [getMachineIDFunc], over a world state [W]. *)
Record Hooks (W : Type) : Type := mkHooks {
  netInterfaces : W -> (list Interface * option error) * W;
  getEnvTypeFunc : W -> string * W;
  getMachineIDFunc : W -> (string * option error) * W
}.

Arguments mkHooks {W} _ _ _.
Arguments netInterfaces {W} _ _.
Arguments getEnvTypeFunc {W} _ _.
Arguments getMachineIDFunc {W} _ _.

(** The state a call runs in: the cache, the world behind the hooks, and
    the record of the hook calls made so far (oldest first). *)
Record Machine (W : Type) : Type := mkMachine {
  cache : Cache;
  world : W;
  calls : list Call
}.

Arguments mkMachine {W} _ _ _.
Arguments cache {W} _.
Arguments world {W} _.
Arguments calls {W} _.

(** Computations over the machine state. *)
Definition M (W A : Type) : Type := Machine W -> A * Machine W.

Definition ret {W A : Type} (a : A) : M W A := fun m => (a, m).

Definition bind {W A B : Type} (c : M W A) (k : A -> M W B) : M W B :=
  fun m => let (a, m') := c m in k a m'.

Declare Scope machine_scope.
Delimit Scope machine_scope with machine.
Notation "x <- c ;; k" := (bind c (fun x => k))
  (at level 61, c at next level, right associativity) : machine_scope.
Notation "c ;;; k" := (bind c (fun _ => k))
  (at level 61, right associativity) : machine_scope.

Definition getCache {W : Type} : M W Cache := fun m => (cache m, m).

Definition setCache {W : Type} (c : Cache) : M W unit :=
  fun m => (tt, mkMachine c (world m) (calls m)).

(** Call a hook: it sees and updates the world, and the call is recorded. *)
Definition callHook {W A : Type} (tag : Call) (f : W -> A * W) : M W A :=
  fun m =>
    let (a, w') := f (world m) in
    (a, mkMachine (cache m) w' (calls m ++ [tag])).

(** One call a client can make. *)
Inductive ApiCall : Type :=
| DoLoadInfo
| DoID
| DoProtectedID (appID : string).

Section Package.

Variable W : Type.
Variable hooks : Hooks W.
(** [strings.Map(unicode.ToLower, s)] for strings with a non-ASCII byte. *)
Variable unicodeLower : string -> string.

Local Open Scope machine_scope.

(* ----------------------------------------------------------------- *)
(** *** [getHardwareId] *)

(** The body of the [for _, iface := range interfaces] loop, [macs] being
    the slice collected so far. *)
Fixpoint collectMacs (interfaces : list Interface) (macs : list string)
    : list string :=
  match interfaces with
  | [] => macs
  | iface :: rest =>
      if negb (N.eqb (N.land (Flags iface) FlagLoopback) 0)
         || Nat.eqb (length (HardwareAddr iface)) 0
      then collectMacs rest macs
      else
        let name := ToLower unicodeLower (Name iface) in
        if Contains name "docker" || Contains name "veth"
           || Contains name "tun" || Contains name "tap"
        then collectMacs rest macs
        else collectMacs rest (macs ++ [HardwareAddr_String (HardwareAddr iface)])
  end.

(** What [getHardwareId] does with the interface list it obtained. *)
Definition hardwareIdOf (interfaces : list Interface) : string * option error :=
  let macs := collectMacs interfaces [] in
  let macs := sort_Strings macs in
  if Nat.eqb (length macs) 0
  then ("", Some (errors_New
          "no valid network interfaces found for hardware ID fallback"))
  else (Join macs ",", None).

Definition getHardwareId : M W (string * option error) :=
  r <- callHook CallNetInterfaces (netInterfaces hooks) ;;
  let '(interfaces, err) := r in
  match err with
  | Some e => ret ("", Some e)
  | None => ret (hardwareIdOf interfaces)
  end.

(* ----------------------------------------------------------------- *)
(** *** [loadInfo] *)

(** The tail of [loadInfo] from its second [if err != nil]: return the
    error, or update the cache and freeze the state. *)
Definition finishLoad (prefix : string) (r : string * option error)
    : M W (option error) :=
  let '(id, err) := r in
  match err with
  | Some e => ret (Some e)
  | None => setCache (mkCache id prefix true) ;;; ret None
  end.

Definition loadInfo : M W (option error) :=
  c <- getCache ;;
  if initialized c then ret None
  else
    prefix <- callHook CallEnvType (getEnvTypeFunc hooks) ;;
    r <- callHook CallMachineID (getMachineIDFunc hooks) ;;
    let '(id, err) := r in
    if errors_Is err ErrNotExist || (is_nil err && is_empty id)
    then r' <- getHardwareId ;; finishLoad prefix r'
    else
      match err with
      | Some e => ret (Some e)
      | None => finishLoad prefix (id, err)
      end.

(* ----------------------------------------------------------------- *)
(** *** [ID] and [ProtectedID] *)

Definition ID : M W (string * option error) :=
  err <- loadInfo ;;
  match err with
  | Some e => ret ("", Some e)
  | None =>
      c <- getCache ;;
      let '(hash, err) := protect (cachedRawID c) in
      match err with
      | Some e => ret ("", Some e)
      | None => ret ((cachedPrefix c ++ ":" ++ hash)%string, None)
      end
  end.

Definition ProtectedID (appID : string) : M W (string * option error) :=
  err <- loadInfo ;;
  match err with
  | Some e => ret ("", Some e)
  | None =>
      c <- getCache ;;
      let '(hash, err) := protect (cachedRawID c ++ ":" ++ appID)%string in
      match err with
      | Some e => ret ("", Some e)
      | None => ret ((cachedPrefix c ++ ":" ++ hash)%string, None)
      end
  end.

(* ----------------------------------------------------------------- *)
(** *** Sequences of calls to the package *)

(** Run one call; a [loadInfo] result is reported with an empty string. *)
Definition runCall (c : ApiCall) : M W (string * option error) :=
  match c with
  | DoLoadInfo => err <- loadInfo ;; ret ("", err)
  | DoID => ID
  | DoProtectedID appID => ProtectedID appID
  end.

(** Run the calls in order, collecting their results. *)
Fixpoint runCalls (cs : list ApiCall) : M W (list (string * option error)) :=
  match cs with
  | [] => ret []
  | c :: rest =>
      r <- runCall c ;;
      rs <- runCalls rest ;;
      ret (r :: rs)
  end.

End Package.

Arguments getHardwareId {W} hooks unicodeLower.
Arguments loadInfo {W} hooks unicodeLower.
Arguments finishLoad {W} prefix r.
Arguments ID {W} hooks unicodeLower.
Arguments ProtectedID {W} hooks unicodeLower appID.
Arguments runCall {W} hooks unicodeLower c.
Arguments runCalls {W} hooks unicodeLower cs.


(* ================================================================= *)
(** ** id_unknown.go: platforms without a primary source *)

Module id_unknown.

(** [getMachineID] under the build tag [!linux && !darwin && !windows]. *)
Definition getMachineID {W : Type} (w : W) : (string * option error) * W :=
  (("", Some (errors_New "os not supported")), w).

End id_unknown.

(* ================================================================= *)
(** ** Test doubles *)

(** A scripted world: the classifier's label, the results the primary
    source gives on its successive calls, and the result of the interface
    enumeration. *)
Record Script : Type := mkScript {
  envLabel : string;
  primaryResults : list (string * option error);
  enumeration : list Interface * option error
}.

Definition scriptedMachineID (w : Script) : (string * option error) * Script :=
  match primaryResults w with
  | [] => (("", Some (errors_New "script exhausted")), w)
  | r :: rest => (r, mkScript (envLabel w) rest (enumeration w))
  end.

Definition scriptedHooks : Hooks Script :=
  mkHooks (fun w => (enumeration w, w))
          (fun w => (envLabel w, w))
          scriptedMachineID.

(** The hooks of a platform without a primary source, on a scripted
    world. *)
Definition unknownHooks : Hooks Script :=
  mkHooks (fun w => (enumeration w, w))
          (fun w => (envLabel w, w))
          id_unknown.getMachineID.

(** A machine that has made no call yet. *)
Definition freshMachine {W : Type} (w : W) : Machine W :=
  mkMachine emptyCache w [].

Definition noUnicode (s : string) : string := s.

Definition lo : Interface :=
  mkInterface 1%Z 65536%Z "lo" [x00; x00; x00; x00; x00; x00] FlagLoopback.
Definition docker0 : Interface :=
  mkInterface 2%Z 1500%Z "docker0" [x02; x42; x00; x00; x00; x00] FlagUp.
Definition veth1234 : Interface :=
  mkInterface 3%Z 1500%Z "veth1234" [x02; x42; x00; x00; x00; x01] FlagUp.
Definition eth0 : Interface :=
  mkInterface 4%Z 1500%Z "eth0" [xaa; xbb; xcc; xdd; xee; xff] FlagUp.
Definition eth1_22 : Interface :=
  mkInterface 5%Z 1500%Z "eth1" [x22; x22; x22; x22; x22; x22] FlagUp.
Definition eth0_11 : Interface :=
  mkInterface 6%Z 1500%Z "eth0" [x11; x11; x11; x11; x11; x11] FlagUp.

Definition permissionDenied : error := errors_New "permission denied".

(* ================================================================= *)
(** ** Definitions used to state the properties *)

(** A byte below 128 that is not ASCII white space: it is no part of the
    encoding of any white-space rune. *)
Definition isBarrier (c : ascii) : bool :=
  N.ltb (N_of_ascii c) 128 && negb (isAsciiSpace c).

(** A lowercase hexadecimal digit: [0-9] or [a-f]. *)
Definition isLowerHex (c : ascii) : bool :=
  let n := N_of_ascii c in
  (N.leb 48 n && N.leb n 57) || (N.leb 97 n && N.leb n 102).

Fixpoint string_forallb (p : ascii -> bool) (s : string) : bool :=
  match s with
  | EmptyString => true
  | String c r => p c && string_forallb p r
  end.

(** The value of a hexadecimal digit, and the byte two digits denote. *)
Definition unhex (c : ascii) : N :=
  let n := N_of_ascii c in
  if N.leb 97 n then n - 87 else n - 48.

Definition byte_of_hex (hi lo : ascii) : byte :=
  SHA256.byte_of_N (16 * unhex hi + unhex lo).

(** The interfaces the fallback keeps, in the words of the specification:
    not loopback, with a hardware address, and with none of the markers
    [docker], [veth], [tun], [tap] in the lowercase name. *)
Definition eligible (unicodeLower : string -> string) (iface : Interface)
    : bool :=
  negb (N.testbit (Flags iface) 2)
  && negb (match HardwareAddr iface with [] => true | _ :: _ => false end)
  && forallb (fun marker =>
                negb (Contains (ToLower unicodeLower (Name iface)) marker))
       ["docker"; "veth"; "tun"; "tap"].

Definition macOf (iface : Interface) : string :=
  HardwareAddr_String (HardwareAddr iface).

Definition noInterfacesError : error :=
  errorString "no valid network interfaces found for hardware ID fallback".

Definition emptyInputError : error := errorString "empty machine id".

Definition unsupportedError : error := errorString "os not supported".

(** Whether the primary source's result sends [loadInfo] to the fallback:
    a not-found error, or success with an empty string. *)
Definition wantsFallback (id : string) (err : option error) : bool :=
  match err with
  | Some e => errors_Is_chain e ErrNotExist
  | None => match id with EmptyString => true | String _ _ => false end
  end.

(** The machine after the classifier and the primary source have run. *)
Definition afterPrimary {W : Type} (m : Machine W) (w2 : W) : Machine W :=
  mkMachine (cache m) w2 (calls m ++ [CallEnvType; CallMachineID]).

(** The last byte of the string is below 128 and not white space. *)
Fixpoint isBarrier_last (s : string) : bool :=
  match s with
  | EmptyString => false
  | String c EmptyString => isBarrier c
  | String _ r => isBarrier_last r
  end.

(** How often a hook was called. *)
Definition countCall (tag : Call) (l : list Call) : nat :=
  count_occ Call_eq_dec l tag.

(** Two distinct messages with the same SHA-256 digest. *)
Definition collide (a b : string) : Prop :=
  a <> b /\
  SHA256.Sum256 (list_byte_of_string a) = SHA256.Sum256 (list_byte_of_string b).


(** [c] occurs in no rune that the three predicates recognise. *)
Definition outside (p1 : ascii -> bool) (p2 : ascii -> ascii -> bool)
    (p3 : ascii -> ascii -> ascii -> bool) (c : ascii) : Prop :=
  p1 c = false /\
  (forall x, p2 c x = false /\ p2 x c = false) /\
  (forall x y, p3 c x y = false /\ p3 x c y = false /\ p3 x y c = false).

(** The two digits [hex.EncodeToString] writes for a byte. *)
Definition hexHi (v : byte) : ascii := hexDigit (N.shiftr (Byte.to_N v) 4).
Definition hexLo (v : byte) : ascii := hexDigit (N.land (Byte.to_N v) 15).

(** The digest string of a message: 64 lowercase hexadecimal digits. *)
Definition hexdigest (msg : string) : string :=
  hex_EncodeToString (SHA256.Sum256 (list_byte_of_string msg)).

(** The string starts with a lowercase hexadecimal digit. *)
Definition startsHex (s : string) : bool :=
  match s with
  | EmptyString => false
  | String c _ => isLowerHex c
  end.

(* ================================================================= *)
(** ** Scripts of the examples *)

Definition notFoundScript : Script :=
  mkScript "physical" [("", Some ErrNotExist)]
    ([lo; docker0; veth1234; eth0], None).

Definition fatalThenGoodScript : Script :=
  mkScript "physical" [("", Some permissionDenied); ("unique-id", None)]
    ([eth0], None).

Definition goodScript : Script :=
  mkScript "test-env" [("test-machine-id", None)] ([], None).

Definition blankScript : Script :=
  mkScript "physical" [(" ", None)] ([], None).

Definition plainIdentifier : string :=
  "test-env:9fa52d819a388ed6c394855fe82c664d771f939b2fa1fee83ff3030e9ca2a284".

Definition scopedIdentifierA : string :=
  "test-env:c8e895c187edce01aaa7963ef5c6c49fffc4d3150232138a8099c7434450fc91".

Definition scopedIdentifierB : string :=
  "test-env:5c5584c3e8d5516431b38cb51d700a0e729c9c62996abae132fce2af810f26bd".

Definition resolvedMachine : Machine Script :=
  mkMachine (mkCache "test-machine-id" "test-env" true)
    (mkScript "test-env" [] ([], None)) [CallEnvType; CallMachineID].

(* ================================================================= *)
(** ** Definitions for the further properties *)

(** A byte of a fallback identity: a lowercase hexadecimal digit, the
    colon inside an address or the comma between two addresses. *)
Definition isMacChar (c : ascii) : bool :=
  isLowerHex c || Ascii.eqb c ":" || Ascii.eqb c ",".

(** The string has no comma and is not empty. *)
Definition commaFree (s : string) : bool :=
  negb (is_empty s) && string_forallb (fun c => negb (Ascii.eqb c ",")) s.

(** The hardware addresses of the interfaces the fallback keeps. *)
Definition eligibleAddrs (unicodeLower : string -> string)
    (l : list Interface) : list (list byte) :=
  map HardwareAddr (filter (eligible unicodeLower) l).

(** The machine after an unresolved [loadInfo] that went through the
    fallback. *)
Definition afterFallback {W : Type} (m : Machine W) (w3 : W) : Machine W :=
  mkMachine (cache m) w3
    (calls m ++ [CallEnvType; CallMachineID; CallNetInterfaces]).

(** A byte of one address: a lowercase hexadecimal digit or a colon. *)
Definition isAddrChar (c : ascii) : bool :=
  isLowerHex c || Ascii.eqb c ":".

(** What [strings.Join] writes after its first element. *)
Definition joinTail (rest : list string) (sep : string) : string :=
  match rest with
  | [] => ""
  | _ :: _ => (sep ++ Join rest sep)%string
  end.

(** The first byte of the string is below 128 and not white space. *)
Definition startsBarrier (s : string) : bool :=
  match s with
  | EmptyString => false
  | String c _ => isBarrier c
  end.

(* ================================================================= *)
(** ** The operating system behind the platform files *)

(** A computation of a platform file: it only sees the world. *)
Definition IO (W A : Type) : Type := W -> A * W.

Definition io_ret {W A : Type} (a : A) : IO W A := fun w => (a, w).

Definition io_bind {W A B : Type} (c : IO W A) (k : A -> IO W B) : IO W B :=
  fun w => let (a, w') := c w in k a w'.

Declare Scope io_scope.
Delimit Scope io_scope with io.
Notation "x <- c ;; k" := (io_bind c (fun x => k))
  (at level 61, c at next level, right associativity) : io_scope.

(** What the Linux files reach of the system: [os.ReadFile], which
    id_linux.go calls directly, and the variables [osReadFile] and [osStat]
    of platform_linux.go.  The [FileInfo] of [os.Stat] is dropped, as the
    caller drops it. *)
Record LinuxOS (W : Type) : Type := mkLinuxOS {
  os_ReadFile : string -> IO W (list byte * option error);
  osReadFile : string -> IO W (list byte * option error);
  osStat : string -> IO W (option error)
}.

Arguments mkLinuxOS {W} _ _ _.
Arguments os_ReadFile {W} _ _ _.
Arguments osReadFile {W} _ _ _.
Arguments osStat {W} _ _ _.

(* ================================================================= *)
(** ** id_linux.go *)

Module id_linux.

Section WithOS.

Variable W : Type.
Variable os : LinuxOS W.

Local Open Scope io_scope.

Definition readFile (path : string) : IO W (string * option error) :=
  r <- os_ReadFile os path ;;
  let '(b, err) := r in
  match err with
  | Some e => io_ret ("", Some e)
  | None => io_ret (TrimSpace (string_of_list_byte b), None)
  end.

Definition getMachineID : IO W (string * option error) :=
  r <- readFile "/etc/machine-id" ;;
  let '(id, err) := r in
  match err with
  | Some e => io_ret ("", Some e)
  | None =>
      if is_empty id
      then io_ret ("", Some (errors_New "empty machine-id file"))
      else io_ret (id, None)
  end.

End WithOS.

Arguments readFile {W} os path.
Arguments getMachineID {W} os.

End id_linux.

(* ================================================================= *)
(** ** platform_linux.go *)

Module platform_linux.

Section WithOS.

Variable W : Type.
Variable os : LinuxOS W.
Variable unicodeLower : string -> string.

Local Open Scope io_scope.

(** The body of [if cgroup, err := osReadFile(...); err == nil]. *)
Definition cgroupSaysContainer (r : list byte * option error) : bool :=
  let '(cgroup, err) := r in
  match err with
  | Some _ => false
  | None =>
      let cgroupData := string_of_list_byte cgroup in
      Contains cgroupData "docker" || Contains cgroupData "kubepods"
  end.

Definition productSaysVM (r : list byte * option error) : bool :=
  let '(product, err) := r in
  match err with
  | Some _ => false
  | None =>
      let s := ToLower unicodeLower (string_of_list_byte product) in
      Contains s "virtual" || Contains s "vmware" || Contains s "qemu"
      || Contains s "kvm"
  end.

Definition vendorSaysVM (r : list byte * option error) : bool :=
  let '(vendor, err) := r in
  match err with
  | Some _ => false
  | None =>
      let s := ToLower unicodeLower (string_of_list_byte vendor) in
      Contains s "qemu" || Contains s "kvm"
  end.

Definition getEnvironmentType : IO W string :=
  err <- osStat os "/.dockerenv" ;;
  if is_nil err then io_ret "docker"
  else
    cgroup <- osReadFile os "/proc/1/cgroup" ;;
    if cgroupSaysContainer cgroup then io_ret "container"
    else
      product <- osReadFile os "/sys/class/dmi/id/product_name" ;;
      if productSaysVM product then io_ret "vm"
      else
        vendor <- osReadFile os "/sys/class/dmi/id/sys_vendor" ;;
        if vendorSaysVM vendor then io_ret "vm"
        else io_ret "physical".

End WithOS.

Arguments getEnvironmentType {W} os unicodeLower.

End platform_linux.

(** The package as built for Linux: the two function variables hold the
    Linux functions. *)
Definition linuxHooks {W : Type} (os : LinuxOS W)
    (unicodeLower : string -> string)
    (net : W -> (list Interface * option error) * W) : Hooks W :=
  mkHooks net (platform_linux.getEnvironmentType os unicodeLower)
    (id_linux.getMachineID os).

(** Whether the scan of [stripRunes] takes a step at the head of [s]. *)
Definition headRune (p1 : ascii -> bool) (p2 : ascii -> ascii -> bool)
    (p3 : ascii -> ascii -> ascii -> bool) (s : string) : bool :=
  match s with
  | EmptyString => false
  | String c0 s1 =>
      p1 c0 ||
      match s1 with
      | EmptyString => false
      | String c1 s2 =>
          p2 c0 c1 ||
          match s2 with
          | EmptyString => false
          | String c2 _ => p3 c0 c1 c2
          end
      end
  end.

(** A file system for the examples: the content of each path, or the
    error of reading it. *)
Definition FileSystem : Type := string -> list byte * option error.

Definition fileOS : LinuxOS FileSystem :=
  mkLinuxOS (fun path fs => (fs path, fs))
            (fun path fs => (fs path, fs))
            (fun path fs => (snd (fs path), fs)).

Definition missingFile (path : string) : list byte * option error :=
  ([], Some (PathError "open" path (Errno ENOENT))).

Definition unreadableFile (path : string) : list byte * option error :=
  ([], Some (PathError "open" path (Errno EACCES))).

(** A plain Linux host: a machine-id file ending in a newline, and
    nothing else to read. *)
Definition plainLinux : FileSystem :=
  fun path =>
    if String.eqb path "/etc/machine-id"
    then (list_byte_of_string
            ("4c4c4544004b3010803" ++ "0b9c04f4d4b32" ++ String "010" ""), None)
    else missingFile path.

(** A Linux host whose machine-id file holds a newline only. *)
Definition blankLinux : FileSystem :=
  fun path =>
    if String.eqb path "/etc/machine-id"
    then (list_byte_of_string (String "010" ""), None)
    else missingFile path.

(** A Linux host without any of the files. *)
Definition bareLinux : FileSystem := missingFile.

(** A Linux host on which nothing can be read. *)
Definition lockedLinux : FileSystem := unreadableFile.

(** A container: the marker file exists. *)
Definition dockerLinux : FileSystem :=
  fun path =>
    if String.eqb path "/.dockerenv" then ([], None) else missingFile path.

Definition oneCard (fs : FileSystem)
    : (list Interface * option error) * FileSystem :=
  (([lo; eth0], None), fs).

(* ================================================================= *)
(** ** More of package [strings]: [Split] and [Trim] *)

(** The scan of [strings.Split] for a separator that is not empty: [cur]
    is the piece being read, latest byte first, and [skip] counts the bytes
    of a separator just found that are still to be passed over. *)
Fixpoint splitFrom (sep : string) (skip : nat) (cur : string) (s : string)
    : list string :=
  match s with
  | EmptyString => [string_rev cur]
  | String c r =>
      match skip with
      | S k => splitFrom sep k cur r
      | O =>
          if HasPrefix s sep
          then string_rev cur :: splitFrom sep (String.length sep - 1) "" r
          else splitFrom sep 0 (String c cur) r
      end
  end.

(** [strings.Split(s, sep)] for [sep] not empty, as the package calls it:
    the pieces between the occurrences of [sep], found from the left. *)
Definition Split (s sep : string) : list string := splitFrom sep 0 "" s.

Fixpoint inCutset (cutset : string) (c : ascii) : bool :=
  match cutset with
  | EmptyString => false
  | String d r => Ascii.eqb c d || inCutset r c
  end.

Fixpoint trimLeftSet (cutset : string) (s : string) : string :=
  match s with
  | EmptyString => EmptyString
  | String c r => if inCutset cutset c then trimLeftSet cutset r else s
  end.

Definition trimRightSet (cutset : string) (s : string) : string :=
  string_rev (trimLeftSet cutset (string_rev s)).

(** [strings.Trim(s, cutset)] for a cutset of ASCII bytes, as the package
    calls it: the bytes of the cutset removed from the end, then from the
    start. *)
Definition Trim (s cutset : string) : string :=
  trimLeftSet cutset (trimRightSet cutset s).

(** The line feed and the cutset of id_darwin.go, a space and a double
    quote. *)
Definition lineFeed : string := String "010" "".
Definition spaceQuote : string := String " " (String "034" "").

(* ================================================================= *)
(** ** The macOS files *)

(** What the macOS files reach of the system: running a command with its
    arguments, which gives the bytes it wrote to standard output and the
    error of [cmd.Run] or [cmd.Output]. *)
Record DarwinOS (W : Type) : Type := mkDarwinOS {
  runCommand : string -> list string -> IO W (list byte * option error)
}.

Arguments mkDarwinOS {W} _.
Arguments runCommand {W} _ _ _ _.

Module id_darwin.

(** The [for _, line := range lines] loop and the [return "", nil] after
    it. *)
Fixpoint scanLines (lines : list string) : string * option error :=
  match lines with
  | [] => ("", None)
  | line :: rest =>
      if Contains line "IOPlatformUUID"
      then
        let parts := Split line "=" in
        if Nat.eqb (length parts) 2
        then (Trim (nth 1 parts "") spaceQuote, None)
        else scanLines rest
      else scanLines rest
  end.

Definition getMachineID {W : Type} (os : DarwinOS W)
    : IO W (string * option error) :=
  (r <- runCommand os "ioreg" ["-rd1"; "-c"; "IOPlatformExpertDevice"] ;;
   let '(out, err) := r in
   match err with
   | Some e => io_ret ("", Some e)
   | None =>
       let output := string_of_list_byte out in
       let lines := Split output lineFeed in
       io_ret (scanLines lines)
   end)%io.

End id_darwin.

Module platform_darwin.

Definition getEnvironmentType {W : Type} (os : DarwinOS W) : IO W string :=
  (r <- runCommand os "sysctl" ["machdep.cpu.features"] ;;
   let '(out, err) := r in
   match err with
   | None =>
       if Contains (string_of_list_byte out) "VMM" then io_ret "vm"
       else io_ret "physical"
   | Some _ => io_ret "physical"
   end)%io.

End platform_darwin.

(** The package as built for macOS. *)
Definition darwinHooks {W : Type} (os : DarwinOS W)
    (net : W -> (list Interface * option error) * W) : Hooks W :=
  mkHooks net (platform_darwin.getEnvironmentType os)
    (id_darwin.getMachineID os).

(* ================================================================= *)
(** ** platform_windows.go *)

(** What platform_windows.go reaches of the registry, under
    [HKEY_LOCAL_MACHINE] and with [QUERY_VALUE] access as at every call:
    opening a key, reading a string value of an open key (the value type is
    dropped, as the caller drops it) and closing a key (so is the error of
    [Close]). *)
Record Registry (W K : Type) : Type := mkRegistry {
  OpenKey : string -> IO W (K * option error);
  GetStringValue : K -> string -> IO W (string * option error);
  CloseKey : K -> IO W unit
}.

Arguments mkRegistry {W K} _ _ _.
Arguments OpenKey {W K} _ _ _.
Arguments GetStringValue {W K} _ _ _ _.
Arguments CloseKey {W K} _ _ _.

Module platform_windows.

Section WithRegistry.

Variable W K : Type.
Variable reg : Registry W K.
Variable unicodeLower : string -> string.

Local Open Scope io_scope.

Definition checkKeyExists (subKey : string) : IO W bool :=
  r <- OpenKey reg subKey ;;
  let '(k, err) := r in
  match err with
  | Some _ => io_ret false
  | None => _ <- CloseKey reg k ;; io_ret true
  end.

(** The closure [getString] of [getEnvironmentType]. *)
Definition getString (k : K) (name : string) : IO W string :=
  r <- GetStringValue reg k name ;;
  let '(val, err) := r in
  match err with
  | Some _ => io_ret ""
  | None => io_ret val
  end.

(** The two checks on the BIOS strings and the final [return "physical"]. *)
Definition biosVerdict (model manufacturer : string) : string :=
  let m := ToLower unicodeLower model in
  let man := ToLower unicodeLower manufacturer in
  if Contains m "virtual" || Contains m "vmware" || Contains m "kvm"
  then "vm"
  else if Contains man "microsoft corporation" && Contains m "virtual"
       then "vm"
       else "physical".

Definition getEnvironmentType : IO W string :=
  hyperv <- checkKeyExists "SOFTWARE\Microsoft\Virtual Machine\Guest\Parameters" ;;
  if hyperv then io_ret "vm"
  else
    vmware <- checkKeyExists "SOFTWARE\VMware, Inc.\VMware Tools" ;;
    if vmware then io_ret "vm"
    else
      vbox <- checkKeyExists "SOFTWARE\Oracle\VirtualBox Guest Additions" ;;
      if vbox then io_ret "vm"
      else
        r <- OpenKey reg "HARDWARE\DESCRIPTION\System\BIOS" ;;
        let '(k, err) := r in
        match err with
        | Some _ => io_ret "physical"
        | None =>
            model <- getString k "SystemProductName" ;;
            manufacturer <- getString k "SystemManufacturer" ;;
            _ <- CloseKey reg k ;;
            io_ret (biosVerdict model manufacturer)
        end.

End WithRegistry.

Arguments checkKeyExists {W K} reg subKey.
Arguments getString {W K} reg k name.
Arguments getEnvironmentType {W K} reg unicodeLower.

End platform_windows.

(** What happens to registry keys: a key was opened, a value of it was
    read, it was closed. *)
Inductive RegEvent (K : Type) : Type :=
| Opened (k : K)
| Queried (k : K)
| Closed (k : K).

Arguments Opened {K} k.
Arguments Queried {K} k.
Arguments Closed {K} k.

(** A registry that records what is done to its keys, beside the world. *)
Definition recording {W K : Type} (reg : Registry W K)
    : Registry (W * list (RegEvent K)) K :=
  mkRegistry
    (fun path st =>
       let '(r, w) := OpenKey reg path (fst st) in
       (r, (w, match snd r with
               | None => snd st ++ [Opened (fst r)]
               | Some _ => snd st
               end)))
    (fun k name st =>
       let '(r, w) := GetStringValue reg k name (fst st) in
       (r, (w, snd st ++ [Queried k])))
    (fun k st =>
       let '(u, w) := CloseKey reg k (fst st) in
       (u, (w, snd st ++ [Closed k]))).

(** A record in which every key opened is read only while open and is
    closed before the next one is opened. *)
Inductive Bracketed {K : Type} : list (RegEvent K) -> Prop :=
| Bracketed_nil : Bracketed []
| Bracketed_session (k : K) (n : nat) (rest : list (RegEvent K)) :
    Bracketed rest ->
    Bracketed (Opened k :: repeat (Queried k) n ++ Closed k :: rest).

(** A registry for the examples: the keys that exist, each with its string
    values. *)
Definition KeyTable : Type := list (string * list (string * string)).

Fixpoint lookupKey {A : Type} (name : string) (l : list (string * A))
    : option A :=
  match l with
  | [] => None
  | (n, a) :: r => if String.eqb n name then Some a else lookupKey name r
  end.

Definition tableRegistry : Registry KeyTable (list (string * string)) :=
  mkRegistry
    (fun path t =>
       match lookupKey path t with
       | Some values => ((values, None), t)
       | None => (([], Some ErrNotExist), t)
       end)
    (fun values name t =>
       match lookupKey name values with
       | Some v => ((v, None), t)
       | None => (("", Some ErrNotExist), t)
       end)
    (fun _ t => (tt, t)).

Definition hyperVGuest : KeyTable :=
  [("HARDWARE\DESCRIPTION\System\BIOS",
    [("SystemProductName", "Virtual Machine");
     ("SystemManufacturer", "Microsoft Corporation")])].

Definition laptop : KeyTable :=
  [("HARDWARE\DESCRIPTION\System\BIOS",
    [("SystemProductName", "Latitude 7420");
     ("SystemManufacturer", "Dell Inc.")])].

(** The standard output of [ioreg] on a Mac, and one without the line of
    the identifier. *)
Definition ioregOutput : string :=
  "+-o Root  <class IORegistryEntry>" ++ lineFeed
  ++ "    {" ++ lineFeed
  ++ "      " ++ String "034" "IOPlatformSerialNumber" ++ String "034" " = "
  ++ String "034" "C02XK0AAJG5H" ++ String "034" lineFeed
  ++ "      " ++ String "034" "IOPlatformUUID" ++ String "034" " = "
  ++ String "034" "564D8E2C-4A60-5B0C-9E3F-0F1A2B3C4D5E" ++ String "034" lineFeed
  ++ "    }" ++ lineFeed.

Definition ioregWithoutUUID : string :=
  "+-o Root  <class IORegistryEntry>" ++ lineFeed ++ "    {" ++ lineFeed
  ++ "    }" ++ lineFeed.

(** A Mac for the examples: what each command prints. *)
Definition commandOS : DarwinOS (string -> list byte * option error) :=
  mkDarwinOS (fun name _ out => (out name, out)).

Definition plainMac : string -> list byte * option error :=
  fun name =>
    if String.eqb name "ioreg" then (list_byte_of_string ioregOutput, None)
    else (list_byte_of_string "machdep.cpu.features: FPU VME DE PSE", None).

Definition macWithoutUUID : string -> list byte * option error :=
  fun name =>
    if String.eqb name "ioreg" then (list_byte_of_string ioregWithoutUUID, None)
    else ([], Some (errorString "exit status 1")).

Definition macCard (out : string -> list byte * option error)
    : (list Interface * option error) * (string -> list byte * option error) :=
  (([lo; eth0], None), out).

(** The first byte of the string, if any, is outside the cutset. *)
Definition headOutside (cutset : string) (s : string) : Prop :=
  match s with
  | EmptyString => True
  | String c _ => inCutset cutset c = false
  end.

(** No equals sign and no line feed. *)
Definition plainByte (c : ascii) : bool :=
  negb (Ascii.eqb c "=") && negb (Ascii.eqb c "010").

(** A script whose primary source is missing and whose enumeration
    fails. *)
Definition networkDown : error := errors_New "network down".

Definition networkDownScript : Script :=
  mkScript "physical" [("", Some ErrNotExist)] ([], Some networkDown).

Definition machineIdOfPlainLinux : string := "4c4c4544004b30108030b9c04f4d4b32".

Definition uuidOfPlainMac : string := "564D8E2C-4A60-5B0C-9E3F-0F1A2B3C4D5E".

(* ================================================================= *)
(** ** Proof automation *)

(** Case analysis on every comparison of byte values in the goal. *)
Ltac split_tests :=
  repeat match goal with
    | |- context [N.eqb ?a ?b] =>
        let E := fresh "E" in
        destruct (N.eqb_spec a b) as [E|E]; [try lia|]
    | |- context [N.leb ?a ?b] =>
        let E := fresh "E" in
        destruct (N.leb_spec a b) as [E|E]; try lia
    end.

(** The order of two bytes, by their values. *)
Ltac order_cases x y :=
  destruct (N.ltb_spec (N_of_ascii x) (N_of_ascii y));
  destruct (N.eqb_spec (N_of_ascii x) (N_of_ascii y)).

(* ================================================================= *)
(** ** Byte strings *)

Section StringFacts.

Lemma append_nil_r (s : string) : (s ++ "")%string = s.
Proof. induction s as [|c s IH]; simpl; [reflexivity | now rewrite IH]. Qed.

Lemma append_assoc (a b c : string) :
  ((a ++ b) ++ c)%string = (a ++ (b ++ c))%string.
Proof. induction a as [|x a IH]; simpl; [reflexivity | now rewrite IH]. Qed.

Lemma length_append (a b : string) :
  String.length (a ++ b) = String.length a + String.length b.
Proof. induction a as [|x a IH]; simpl; [reflexivity | now rewrite IH]. Qed.

Lemma append_cancel_l (a b c : string) :
  (a ++ b)%string = (a ++ c)%string -> b = c.
Proof.
  induction a as [|x a IH]; simpl; intros H; [exact H|].
  injection H as H. auto.
Qed.

Lemma string_rev_append_spec (s acc : string) :
  string_rev_append s acc = (string_rev s ++ acc)%string.
Proof.
  unfold string_rev. revert acc.
  induction s as [|c s IH]; intros acc; simpl; [reflexivity|].
  rewrite IH, (IH (String c "")), append_assoc. reflexivity.
Qed.

Lemma string_rev_cons (c : ascii) (s : string) :
  string_rev (String c s) = (string_rev s ++ String c "")%string.
Proof. unfold string_rev at 1. simpl. apply string_rev_append_spec. Qed.

Lemma string_rev_app (a b : string) :
  string_rev (a ++ b) = (string_rev b ++ string_rev a)%string.
Proof.
  induction a as [|c a IH]; simpl.
  - now rewrite append_nil_r.
  - now rewrite !string_rev_cons, IH, append_assoc.
Qed.

Lemma string_rev_last_barrier (s : string) :
  isBarrier_last s = true ->
  exists x r, isBarrier x = true /\ string_rev s = String x r.
Proof.
  induction s as [|c s IH]; [discriminate|].
  destruct s as [|d s].
  - cbn [isBarrier_last]. intros H. exists c, "". now split.
  - intros H.
    change (isBarrier_last (String c (String d s)))
      with (isBarrier_last (String d s)) in H.
    destruct (IH H) as (x & r & Hx & Hr).
    exists x, (r ++ String c "")%string. split; [exact Hx|].
    now rewrite string_rev_cons, Hr.
Qed.

Lemma string_rev_involutive (s : string) : string_rev (string_rev s) = s.
Proof.
  induction s as [|c s IH]; [reflexivity|].
  rewrite string_rev_cons, string_rev_app, IH. reflexivity.
Qed.

Lemma length_string_rev (s : string) :
  String.length (string_rev s) = String.length s.
Proof.
  induction s as [|c s IH]; [reflexivity|].
  rewrite string_rev_cons, length_append, IH. simpl. lia.
Qed.

End StringFacts.

(* ================================================================= *)
(** ** White-space trimming *)

Section Strip.

Variable p1 : ascii -> bool.
Variable p2 : ascii -> ascii -> bool.
Variable p3 : ascii -> ascii -> ascii -> bool.

Lemma stripRunes_stop (c : ascii) (b : string) :
  outside p1 p2 p3 c -> stripRunes p1 p2 p3 (String c b) = String c b.
Proof.
  intros (H1 & H2 & H3). simpl. rewrite H1.
  destruct b as [|c1 b]; [reflexivity|].
  rewrite (proj1 (H2 c1)).
  destruct b as [|c2 b]; [reflexivity|].
  now rewrite (proj1 (H3 c1 c2)).
Qed.

Lemma stripRunes_barrier_bounded (c : ascii) (b : string) :
  outside p1 p2 p3 c ->
  forall n a, String.length a <= n ->
    stripRunes p1 p2 p3 (a ++ String c b)
    = (stripRunes p1 p2 p3 a ++ String c b)%string.
Proof.
  intros Hc. pose proof (stripRunes_stop c b Hc) as Hstop.
  destruct Hc as (H1 & H2 & H3).
  induction n as [|n IH]; intros a Hlen.
  - destruct a; simpl in Hlen; [exact Hstop | lia].
  - destruct a as [|a0 [|a1 [|a2 a]]]; simpl in Hlen.
    + exact Hstop.
    + cbn [append stripRunes]. destruct (p1 a0) eqn:E1; [exact Hstop|].
      rewrite (proj2 (H2 a0)).
      destruct b as [|c2 b]; [reflexivity|].
      now rewrite (proj1 (proj2 (H3 a0 c2))).
    + cbn [append stripRunes]. destruct (p1 a0) eqn:E1.
      * apply (IH (String a1 "")). simpl. lia.
      * destruct (p2 a0 a1) eqn:E2; [exact Hstop|].
        now rewrite (proj2 (proj2 (H3 a0 a1))).
    + cbn [append stripRunes]. destruct (p1 a0) eqn:E1.
      * apply (IH (String a1 (String a2 a))). simpl. lia.
      * destruct (p2 a0 a1) eqn:E2.
        -- apply (IH (String a2 a)). simpl. lia.
        -- destruct (p3 a0 a1 a2) eqn:E3; [apply IH; lia | reflexivity].
Qed.

(** The scan never crosses a byte outside every recognised rune. *)
Lemma stripRunes_barrier (c : ascii) (a b : string) :
  outside p1 p2 p3 c ->
  stripRunes p1 p2 p3 (a ++ String c b)
  = (stripRunes p1 p2 p3 a ++ String c b)%string.
Proof.
  intros Hc. apply (stripRunes_barrier_bounded c b Hc (String.length a)). lia.
Qed.

Lemma stripRunes_length_bounded :
  forall n s, String.length s <= n ->
    String.length (stripRunes p1 p2 p3 s) <= String.length s.
Proof.
  induction n as [|n IH]; intros s Hlen.
  - destruct s; simpl in *; lia.
  - destruct s as [|c0 s]; [simpl; lia|].
    simpl in Hlen. cbn [stripRunes].
    destruct (p1 c0); [specialize (IH s); simpl; lia|].
    destruct s as [|c1 s]; [lia|].
    simpl in Hlen.
    destruct (p2 c0 c1); [specialize (IH s); simpl; lia|].
    destruct s as [|c2 s]; [lia|].
    simpl in Hlen.
    destruct (p3 c0 c1 c2); [specialize (IH s); simpl; lia | lia].
Qed.

Lemma stripRunes_length (s : string) :
  String.length (stripRunes p1 p2 p3 s) <= String.length s.
Proof. apply (stripRunes_length_bounded (String.length s)). lia. Qed.

End Strip.

Lemma isBarrier_bounds (c : ascii) :
  isBarrier c = true ->
  (N_of_ascii c < 128)%N /\
  ((N_of_ascii c < 9)%N \/ (13 < N_of_ascii c)%N) /\ N_of_ascii c <> 32%N.
Proof.
  unfold isBarrier, isAsciiSpace. intros H.
  apply andb_prop in H. destruct H as [H1 H2].
  apply N.ltb_lt in H1. apply negb_true_iff in H2.
  apply orb_false_elim in H2. destruct H2 as [H2 H3].
  apply N.eqb_neq in H3. apply andb_false_elim in H2.
  repeat split; try assumption.
  destruct H2 as [H2|H2]; apply N.leb_gt in H2; [left|right]; assumption.
Qed.

Lemma barrier_outside_forward (c : ascii) :
  isBarrier c = true -> outside isAsciiSpace isSpace2 isSpace3 c.
Proof.
  intros H. destruct (isBarrier_bounds c H) as (Hlt & Hsp & H32).
  unfold outside, isAsciiSpace, isSpace2, isSpace3. cbv zeta.
  repeat split; intros; split_tests; reflexivity.
Qed.

Lemma barrier_outside_backward (c : ascii) :
  isBarrier c = true ->
  outside isAsciiSpace (fun cl cf => isSpace2 cf cl)
    (fun cl cm cf => isSpace3 cf cm cl) c.
Proof.
  intros H. destruct (barrier_outside_forward c H) as (H1 & H2 & H3).
  repeat split; try assumption; try apply H2; apply H3.
Qed.

Lemma TrimLeftSpace_barrier (c : ascii) (a b : string) :
  isBarrier c = true ->
  TrimLeftSpace (a ++ String c b) = (TrimLeftSpace a ++ String c b)%string.
Proof.
  intros H. apply stripRunes_barrier, barrier_outside_forward, H.
Qed.

Lemma TrimRightSpace_barrier (c : ascii) (a b : string) :
  isBarrier c = true ->
  TrimRightSpace (a ++ String c b) = (a ++ String c (TrimRightSpace b))%string.
Proof.
  intros H. unfold TrimRightSpace.
  rewrite string_rev_app, string_rev_cons, append_assoc. cbn [append].
  rewrite stripRunes_barrier by (apply barrier_outside_backward, H).
  rewrite string_rev_app, string_rev_cons, string_rev_involutive.
  rewrite append_assoc. reflexivity.
Qed.

(** Trimming on both sides of a byte that is no part of white space. *)
Lemma TrimSpace_barrier (c : ascii) (a b : string) :
  isBarrier c = true ->
  TrimSpace (a ++ String c b)
  = (TrimLeftSpace a ++ String c (TrimRightSpace b))%string.
Proof.
  intros H. unfold TrimSpace.
  rewrite TrimLeftSpace_barrier by exact H.
  apply TrimRightSpace_barrier, H.
Qed.

Lemma TrimRightSpace_last (s : string) :
  isBarrier_last s = true -> TrimRightSpace s = s.
Proof.
  intros H. destruct (string_rev_last_barrier s H) as (x & r & Hx & Hr).
  unfold TrimRightSpace.
  rewrite Hr, stripRunes_stop by now apply barrier_outside_backward.
  rewrite <- Hr. apply string_rev_involutive.
Qed.

Lemma TrimSpace_length (s : string) :
  String.length (TrimSpace s) <= String.length (TrimLeftSpace s).
Proof.
  unfold TrimSpace, TrimRightSpace.
  rewrite length_string_rev.
  etransitivity; [apply stripRunes_length|].
  now rewrite length_string_rev.
Qed.

(* ================================================================= *)
(** ** Hexadecimal encoding and the digest *)

Lemma hex_digits_lower (v : byte) :
  isLowerHex (hexHi v) = true /\ isLowerHex (hexLo v) = true.
Proof. destruct v; vm_compute; split; reflexivity. Qed.

Lemma byte_of_hex_digits (v : byte) : byte_of_hex (hexHi v) (hexLo v) = v.
Proof. destruct v; vm_compute; reflexivity. Qed.

Lemma hex_EncodeToString_lower (src : list byte) :
  string_forallb isLowerHex (hex_EncodeToString src) = true.
Proof.
  induction src as [|v r IH]; [reflexivity|].
  destruct (hex_digits_lower v) as [Hh Hl].
  cbn [hex_EncodeToString string_forallb]. fold (hexHi v) (hexLo v).
  now rewrite Hh, Hl, IH.
Qed.

Lemma hex_EncodeToString_length (src : list byte) :
  String.length (hex_EncodeToString src) = 2 * length src.
Proof.
  induction src as [|v r IH]; [reflexivity|].
  cbn [hex_EncodeToString String.length length]. rewrite IH. lia.
Qed.

Lemma hex_EncodeToString_inj (a b : list byte) :
  hex_EncodeToString a = hex_EncodeToString b -> a = b.
Proof.
  revert b. induction a as [|v a IH]; intros [|w b] H;
    cbn [hex_EncodeToString] in H; try discriminate; [reflexivity|].
  fold (hexHi v) (hexLo v) (hexHi w) (hexLo w) in H.
  injection H as Hh Hl Hr.
  f_equal; [|now apply IH].
  rewrite <- (byte_of_hex_digits v), <- (byte_of_hex_digits w).
  now rewrite Hh, Hl.
Qed.

Lemma isLowerHex_isBarrier (c : ascii) :
  isLowerHex c = true -> isBarrier c = true.
Proof.
  unfold isLowerHex, isBarrier, isAsciiSpace. cbv zeta.
  destruct (N.ltb_spec (N_of_ascii c) 128); split_tests;
    simpl; intros; try discriminate; reflexivity.
Qed.

(** The embedding of SHA-256 against the test vectors of FIPS 180-4: the
    empty message, one block, and a message whose padding needs a second
    block. *)
Example Sum256_empty :
  hex_EncodeToString (SHA256.Sum256 [])
  = "e3b0c44298fc1c149afbf4c8996fb92427ae41e4649b934ca495991b7852b855".
Proof. vm_compute. reflexivity. Qed.

Example Sum256_abc :
  hex_EncodeToString (SHA256.Sum256 (list_byte_of_string "abc"))
  = "ba7816bf8f01cfea414140de5dae2223b00361a396177a9cb410ff61f20015ad".
Proof. vm_compute. reflexivity. Qed.

Example Sum256_two_blocks :
  hex_EncodeToString
    (SHA256.Sum256
       (list_byte_of_string
          "abcdbcdecdefdefgefghfghighijhijkijkljklmklmnlmnomnopnopq"))
  = "248d6a61d20638b8e5c026930c3e6039a33ce45964ff2167f6ecedd419db06c1".
Proof. vm_compute. reflexivity. Qed.

Lemma word_bytes_length (x : N) : length (SHA256.word_bytes x) = 4.
Proof. reflexivity. Qed.

(** A SHA-256 digest is 32 bytes long, whatever the data. *)
Lemma Sum256_length (data : list byte) : length (SHA256.Sum256 data) = 32.
Proof.
  unfold SHA256.Sum256. cbv zeta.
  rewrite !length_app, !word_bytes_length. reflexivity.
Qed.

Lemma hexdigest_shape (msg : string) :
  String.length (hexdigest msg) = 64 /\
  string_forallb isLowerHex (hexdigest msg) = true.
Proof.
  unfold hexdigest. split.
  - now rewrite hex_EncodeToString_length, Sum256_length.
  - apply hex_EncodeToString_lower.
Qed.

(** [protect] in one equation. *)
Lemma protect_eq (s : string) :
  protect s =
  if is_empty (TrimSpace s) then ("", Some emptyInputError)
  else (hexdigest (TrimSpace s), None).
Proof.
  unfold protect, hash_Write, hash_Sum, sha256_New, hexdigest. cbv zeta.
  destruct (is_empty (TrimSpace s)); reflexivity.
Qed.

Lemma is_empty_false (s : string) : is_empty s = false <-> s <> "".
Proof. destruct s; simpl; split; intros; congruence. Qed.

(* ================================================================= *)
(** ** The order on strings and [sort.Strings] *)

Section Order.

Lemma N_of_ascii_inj (x y : ascii) : N_of_ascii x = N_of_ascii y -> x = y.
Proof.
  intros H. rewrite <- (ascii_N_embedding x), <- (ascii_N_embedding y).
  now rewrite H.
Qed.

Lemma string_ltb_asym (a b : string) :
  string_ltb a b = true -> string_ltb b a = false.
Proof.
  revert b. induction a as [|x a IH]; intros [|y b]; simpl;
    try reflexivity; try discriminate.
  order_cases x y; order_cases y x; simpl; try lia; try discriminate;
    try reflexivity.
  apply IH.
Qed.

Lemma string_ltb_total (a b : string) :
  string_ltb a b = false -> string_ltb b a = false -> a = b.
Proof.
  revert b. induction a as [|x a IH]; intros [|y b]; simpl;
    try reflexivity; try discriminate.
  order_cases x y; order_cases y x; simpl; try lia; try discriminate.
  intros Hab Hba. f_equal; [now apply N_of_ascii_inj | now apply IH].
Qed.

Lemma string_le_lt_trans (z x y : string) :
  string_ltb z x = false -> string_ltb z y = true -> string_ltb x y = true.
Proof.
  revert x y. induction z as [|cz z IH]; intros [|cx x] [|cy y]; simpl;
    try reflexivity; try discriminate.
  order_cases cz cx; order_cases cz cy; order_cases cx cy; simpl;
    try lia; try discriminate; try reflexivity.
  apply IH.
Qed.

Lemma insertSorted_comm (x y : string) (l : list string) :
  insertSorted x (insertSorted y l) = insertSorted y (insertSorted x l).
Proof.
  induction l as [|z l IH]; simpl.
  - destruct (string_ltb y x) eqn:Eyx, (string_ltb x y) eqn:Exy;
      try reflexivity.
    + apply string_ltb_asym in Eyx. congruence.
    + now rewrite (string_ltb_total _ _ Exy Eyx).
  - destruct (string_ltb z y) eqn:Ezy, (string_ltb z x) eqn:Ezx; simpl;
      rewrite ?Ezy, ?Ezx.
    + now rewrite IH.
    + now rewrite (string_le_lt_trans _ _ _ Ezx Ezy).
    + now rewrite (string_le_lt_trans _ _ _ Ezy Ezx).
    + destruct (string_ltb y x) eqn:Eyx, (string_ltb x y) eqn:Exy;
        simpl; rewrite ?Ezy, ?Ezx; try reflexivity.
      * apply string_ltb_asym in Eyx. congruence.
      * now rewrite (string_ltb_total _ _ Exy Eyx).
Qed.

(** Sorting forgets the order of its input. *)
Lemma sort_Strings_Permutation (l l' : list string) :
  Permutation l l' -> sort_Strings l = sort_Strings l'.
Proof.
  induction 1 as [|x l l' _ IH|x y l|l l' l'' _ IH1 _ IH2]; simpl.
  - reflexivity.
  - now rewrite IH.
  - apply insertSorted_comm.
  - congruence.
Qed.

Lemma insertSorted_Permutation (x : string) (l : list string) :
  Permutation (x :: l) (insertSorted x l).
Proof.
  induction l as [|y l IH]; simpl; [reflexivity|].
  destruct (string_ltb y x); [|reflexivity].
  rewrite perm_swap. now apply perm_skip.
Qed.

Lemma sort_Strings_is_Permutation (l : list string) :
  Permutation l (sort_Strings l).
Proof.
  induction l as [|x l IH]; simpl; [constructor|].
  rewrite <- insertSorted_Permutation. now apply perm_skip.
Qed.



End Order.

(* ================================================================= *)
(** ** The interface filter *)

Lemma loopback_bit (n : N) :
  N.eqb (N.land n FlagLoopback) 0 = negb (N.testbit n 2).
Proof.
  destruct n as [|p]; [reflexivity|].
  destruct p as [[[p|p|]|[p|p|]|]|[[p|p|]|[p|p|]|]|]; reflexivity.
Qed.

Section Filter.

Variable unicodeLower : string -> string.

Lemma collectMacs_acc (l : list Interface) (acc : list string) :
  collectMacs unicodeLower l acc
  = acc ++ map macOf (filter (eligible unicodeLower) l).
Proof.
  revert acc. induction l as [|i l IH]; intros acc; simpl.
  - now rewrite app_nil_r.
  - unfold eligible at 1. rewrite loopback_bit, negb_involutive.
    destruct (N.testbit (Flags i) 2); simpl; [apply IH|].
    destruct (HardwareAddr i) eqn:Ea; simpl; [apply IH|].
    destruct (Contains _ "docker"); simpl; [apply IH|].
    destruct (Contains _ "veth"); simpl; [apply IH|].
    destruct (Contains _ "tun"); simpl; [apply IH|].
    destruct (Contains _ "tap"); simpl; [apply IH|].
    rewrite IH, <- app_assoc. unfold macOf. now rewrite Ea.
Qed.


(** [getHardwareId] after a successful enumeration, in one equation. *)
Lemma hardwareIdOf_eq (l : list Interface) :
  hardwareIdOf unicodeLower l =
  match filter (eligible unicodeLower) l with
  | [] => ("", Some noInterfacesError)
  | _ :: _ =>
      (Join (sort_Strings (map macOf (filter (eligible unicodeLower) l))) ",",
       None)
  end.
Proof.
  unfold hardwareIdOf. cbv zeta. rewrite collectMacs_acc. cbn [app].
  pose proof (Permutation_length
    (sort_Strings_is_Permutation (map macOf (filter (eligible unicodeLower) l))))
    as Hlen.
  rewrite <- Hlen, length_map.
  destruct (filter (eligible unicodeLower) l); reflexivity.
Qed.

End Filter.

(* ================================================================= *)
(** ** The fallback's result can always be hashed *)

Lemma macOf_startsHex (unicodeLower : string -> string) (i : Interface) :
  eligible unicodeLower i = true -> startsHex (macOf i) = true.
Proof.
  unfold eligible, macOf. intros H.
  apply andb_prop in H. destruct H as [H _].
  apply andb_prop in H. destruct H as [_ H].
  destruct (HardwareAddr i) as [|b r]; [discriminate|].
  unfold HardwareAddr_String. cbn [HardwareAddr_loop append startsHex].
  apply (hex_digits_lower b).
Qed.

Lemma Join_startsHex (x : string) (rest : list string) (sep : string) :
  startsHex x = true -> startsHex (Join (x :: rest) sep) = true.
Proof.
  destruct x as [|c x]; [discriminate|]. intros H.
  destruct rest; exact H.
Qed.

Lemma hardwareIdOf_startsHex (unicodeLower : string -> string)
    (l : list Interface) (hid : string) :
  hardwareIdOf unicodeLower l = (hid, None) -> startsHex hid = true.
Proof.
  rewrite hardwareIdOf_eq.
  destruct (filter (eligible unicodeLower) l) as [|i f] eqn:Ef;
    [discriminate|].
  assert (Hall : Forall (fun s => startsHex s = true)
                   (sort_Strings (map macOf (i :: f)))).
  { eapply Permutation_Forall; [apply sort_Strings_is_Permutation|].
    apply Forall_map. rewrite <- Ef. apply Forall_forall.
    intros x Hx. apply filter_In in Hx.
    apply (macOf_startsHex unicodeLower), Hx. }
  pose proof (Permutation_length (sort_Strings_is_Permutation (map macOf (i :: f))))
    as Hlen.
  remember (sort_Strings (map macOf (i :: f))) as sorted eqn:Es.
  intros H. injection H as H. subst hid.
  destruct sorted as [|x rest]; [discriminate|].
  apply Join_startsHex. now inversion Hall.
Qed.

Lemma startsHex_TrimSpace (s : string) :
  startsHex s = true -> TrimSpace s <> "".
Proof.
  destruct s as [|c r]; [discriminate|]. cbn [startsHex]. intros H.
  change (String c r) with ("" ++ String c r)%string.
  rewrite TrimSpace_barrier by now apply isLowerHex_isBarrier.
  discriminate.
Qed.

(** A string with a colon in it never trims to nothing. *)
Lemma TrimSpace_colon (a b : string) :
  TrimSpace (a ++ ":" ++ b)
  = (TrimLeftSpace a ++ ":" ++ TrimRightSpace b)%string.
Proof. apply TrimSpace_barrier. reflexivity. Qed.

Lemma append_not_empty (a : string) (c : ascii) (b : string) :
  (a ++ String c b)%string <> "".
Proof. destruct a; discriminate. Qed.

(* ================================================================= *)
(** ** The resolver, one step at a time *)

Section Resolver.

Variable W : Type.
Variable hooks : Hooks W.
Variable unicodeLower : string -> string.

Local Abbreviation loadInfo' := (loadInfo hooks unicodeLower).
Local Abbreviation getHardwareId' := (getHardwareId hooks unicodeLower).
Local Abbreviation ID' := (ID hooks unicodeLower).
Local Abbreviation ProtectedID' := (ProtectedID hooks unicodeLower).
Local Abbreviation runCall' := (runCall hooks unicodeLower).
Local Abbreviation runCalls' := (runCalls hooks unicodeLower).

Lemma wantsFallback_eq (id : string) (err : option error) :
  errors_Is err ErrNotExist || (is_nil err && is_empty id)
  = wantsFallback id err.
Proof.
  destruct err as [e|]; simpl; [apply orb_false_r | reflexivity].
Qed.

(** A missing file, as [os.ReadFile] reports it, is a not-found error;
    an unreadable one is not. *)
Example errors_Is_missing_file :
  errors_Is (Some (PathError "open" "/etc/machine-id" (Errno ENOENT)))
    ErrNotExist = true /\
  errors_Is (Some (PathError "open" "/etc/machine-id" (Errno EACCES)))
    ErrNotExist = false.
Proof. split; reflexivity. Qed.

Lemma getHardwareId_eq (m : Machine W) ifaces err w' :
  netInterfaces hooks (world m) = ((ifaces, err), w') ->
  getHardwareId' m =
  (match err with
   | Some e => ("", Some e)
   | None => hardwareIdOf unicodeLower ifaces
   end,
   mkMachine (cache m) w' (calls m ++ [CallNetInterfaces])).
Proof.
  intros H. unfold getHardwareId, bind, callHook, ret. rewrite H.
  destruct err; reflexivity.
Qed.

Lemma loadInfo_fast (m : Machine W) :
  initialized (cache m) = true -> loadInfo' m = (None, m).
Proof.
  intros H. unfold loadInfo, bind, getCache, ret. now rewrite H.
Qed.

Lemma loadInfo_slow (m : Machine W) prefix w1 id err w2 :
  initialized (cache m) = false ->
  getEnvTypeFunc hooks (world m) = (prefix, w1) ->
  getMachineIDFunc hooks w1 = ((id, err), w2) ->
  loadInfo' m =
  if wantsFallback id err
  then let (r, m3) := getHardwareId' (afterPrimary m w2) in
       finishLoad prefix r m3
  else match err with
       | Some e => (Some e, afterPrimary m w2)
       | None =>
           (None, mkMachine (mkCache id prefix true) w2
                    (calls m ++ [CallEnvType; CallMachineID]))
       end.
Proof.
  intros Hi He Hp.
  unfold loadInfo, bind, getCache, callHook, ret. rewrite Hi.
  cbn [world cache calls]. rewrite He. cbn [world cache calls]. rewrite Hp.
  rewrite wantsFallback_eq, <- app_assoc. cbn [app].
  destruct (wantsFallback id err); [reflexivity|].
  destruct err; reflexivity.
Qed.

(** What a call of [loadInfo] can do to the cache. *)
Lemma loadInfo_outcome (m : Machine W) :
  match loadInfo' m with
  | (Some e, m') => initialized (cache m) = false /\ cache m' = cache m
  | (None, m') => initialized (cache m') = true
  end.
Proof.
  destruct (initialized (cache m)) eqn:Hi.
  - now rewrite loadInfo_fast.
  - destruct (getEnvTypeFunc hooks (world m)) as [prefix w1] eqn:He.
    destruct (getMachineIDFunc hooks w1) as [[id err] w2] eqn:Hp.
    rewrite (loadInfo_slow m prefix w1 id err w2 Hi He Hp).
    destruct (wantsFallback id err).
    + destruct (netInterfaces hooks (world (afterPrimary m w2)))
        as [[ifaces nerr] w3] eqn:Hn.
      rewrite (getHardwareId_eq _ _ _ _ Hn).
      destruct nerr as [e|]; [now split|].
      destruct (hardwareIdOf unicodeLower ifaces) as [hid [e|]];
        [now split | reflexivity].
    + destruct err; [now split | reflexivity].
Qed.

Lemma ID_eq (m : Machine W) :
  ID' m =
  match loadInfo' m with
  | (Some e, m') => (("", Some e), m')
  | (None, m') =>
      (match protect (cachedRawID (cache m')) with
       | (_, Some e) => ("", Some e)
       | (hash, None) => ((cachedPrefix (cache m') ++ ":" ++ hash)%string, None)
       end, m')
  end.
Proof.
  unfold ID, bind, getCache, ret.
  destruct (loadInfo' m) as [[e|] m']; [reflexivity|].
  destruct (protect _) as [h [e|]]; reflexivity.
Qed.

Lemma ProtectedID_eq (appID : string) (m : Machine W) :
  ProtectedID' appID m =
  match loadInfo' m with
  | (Some e, m') => (("", Some e), m')
  | (None, m') =>
      (match protect (cachedRawID (cache m') ++ ":" ++ appID) with
       | (_, Some e) => ("", Some e)
       | (hash, None) => ((cachedPrefix (cache m') ++ ":" ++ hash)%string, None)
       end, m')
  end.
Proof.
  unfold ProtectedID, bind, getCache, ret.
  destruct (loadInfo' m) as [[e|] m']; [reflexivity|].
  destruct (protect _) as [h [e|]]; reflexivity.
Qed.

Lemma getHardwareId_run (m : Machine W) :
  exists r w3,
    getHardwareId' m
    = (r, mkMachine (cache m) w3 (calls m ++ [CallNetInterfaces])).
Proof.
  destruct (netInterfaces hooks (world m)) as [[ifaces nerr] w3] eqn:Hn.
  rewrite (getHardwareId_eq _ _ _ _ Hn). eauto.
Qed.

Lemma finishLoad_eq (prefix : string) (r : string * option error)
    (m : Machine W) :
  finishLoad prefix r m =
  match snd r with
  | Some e => (Some e, m)
  | None => (None, mkMachine (mkCache (fst r) prefix true) (world m) (calls m))
  end.
Proof. destruct r as [id [e|]]; reflexivity. Qed.

(** The hook calls one unresolved [loadInfo] makes. *)
Lemma loadInfo_calls (m : Machine W) prefix w1 id err w2 :
  initialized (cache m) = false ->
  getEnvTypeFunc hooks (world m) = (prefix, w1) ->
  getMachineIDFunc hooks w1 = ((id, err), w2) ->
  calls (snd (loadInfo' m))
  = calls m ++ [CallEnvType; CallMachineID]
      ++ (if wantsFallback id err then [CallNetInterfaces] else []).
Proof.
  intros Hi He Hp. rewrite (loadInfo_slow m prefix w1 id err w2 Hi He Hp).
  destruct (wantsFallback id err).
  - destruct (getHardwareId_run (afterPrimary m w2)) as (r & w3 & Hr).
    rewrite Hr, finishLoad_eq. cbn [afterPrimary calls].
    destruct (snd r); cbn [snd calls]; now rewrite <- app_assoc.
  - destruct err; cbn [snd afterPrimary calls]; now rewrite app_nil_r.
Qed.

(** Once resolved, no call changes the machine. *)
Lemma runCall_resolved (c : ApiCall) (m : Machine W) :
  initialized (cache m) = true ->
  snd (runCall hooks unicodeLower c m) = m.
Proof.
  intros Hi. destruct c as [| |appID]; cbn [runCall].
  - unfold bind, ret. now rewrite loadInfo_fast.
  - rewrite ID_eq, loadInfo_fast by exact Hi.
    destruct (protect _) as [h [e|]]; reflexivity.
  - rewrite ProtectedID_eq, loadInfo_fast by exact Hi.
    destruct (protect _) as [h [e|]]; reflexivity.
Qed.

Lemma runCalls_resolved (cs : list ApiCall) (m : Machine W) :
  initialized (cache m) = true -> snd (runCalls' cs m) = m.
Proof.
  intros Hi. induction cs as [|c cs IH]; [reflexivity|].
  cbn [runCalls]. unfold bind, ret.
  pose proof (runCall_resolved c m Hi) as Hc.
  destruct (runCall hooks unicodeLower c m) as [r m1]. cbn [snd] in Hc. subst m1.
  destruct (runCalls' cs m) as [rs m2]. exact IH.
Qed.

(* ----------------------------------------------------------------- *)
(** *** Properties of the resolver *)

(** C1.  In an unresolved state, [loadInfo] calls the classifier and the
    primary source, and then the hardware fallback exactly when the primary
    source failed with a not-found error or succeeded with the empty
    string.  When the fallback runs, [loadInfo] returns the fallback's
    error, or caches the fallback's identity: the primary's error is not
    returned. *)
Theorem loadInfo_fallback_exactly_when
    (m : Machine W) prefix w1 id err w2 :
  initialized (cache m) = false ->
  getEnvTypeFunc hooks (world m) = (prefix, w1) ->
  getMachineIDFunc hooks w1 = ((id, err), w2) ->
  (wantsFallback id err = true <->
     errors_Is err ErrNotExist = true \/ (err = None /\ id = "")) /\
  calls (snd (loadInfo' m))
  = calls m ++ [CallEnvType; CallMachineID]
      ++ (if wantsFallback id err then [CallNetInterfaces] else []) /\
  (wantsFallback id err = true ->
     let fallback := fst (getHardwareId' (afterPrimary m w2)) in
     fst (loadInfo' m) = snd fallback /\
     (snd fallback = None ->
        cache (snd (loadInfo' m)) = mkCache (fst fallback) prefix true) /\
     (snd fallback <> None -> cache (snd (loadInfo' m)) = cache m)).
Proof.
  intros Hi He Hp.
  rewrite (loadInfo_slow m prefix w1 id err w2 Hi He Hp).
  split; [|split].
  - destruct err as [e|]; simpl.
    + split; [now left | intros [H|[H _]]; [exact H | discriminate]].
    + destruct id; split; intros H; try discriminate; auto.
      destruct H as [H|[_ H]]; discriminate.
  - rewrite <- (loadInfo_slow m prefix w1 id err w2 Hi He Hp).
    now apply (loadInfo_calls m prefix w1 id err w2).
  - intros Hf. rewrite Hf. cbv zeta.
    destruct (getHardwareId_run (afterPrimary m w2))
      as (r & w3 & Hr).
    rewrite Hr, finishLoad_eq. cbn [fst].
    destruct (snd r) as [e|]; cbn [fst snd cache afterPrimary];
      repeat split; congruence.
Qed.

(** C2.  In an unresolved state, when the primary source fails with an
    error that is not a not-found error, [loadInfo] returns that very error
    at once: the fallback's hook is not called, and the cache, with
    [initialized] false, is as it was. *)
Theorem loadInfo_fatal_error
    (m : Machine W) prefix w1 id e w2 :
  initialized (cache m) = false ->
  getEnvTypeFunc hooks (world m) = (prefix, w1) ->
  getMachineIDFunc hooks w1 = ((id, Some e), w2) ->
  errors_Is (Some e) ErrNotExist = false ->
  fst (loadInfo' m) = Some e /\
  cache (snd (loadInfo' m)) = cache m /\
  initialized (cache (snd (loadInfo' m))) = false /\
  world (snd (loadInfo' m)) = w2 /\
  calls (snd (loadInfo' m)) = calls m ++ [CallEnvType; CallMachineID] /\
  countCall CallNetInterfaces (calls (snd (loadInfo' m)))
  = countCall CallNetInterfaces (calls m).
Proof.
  intros Hi He Hp Hne.
  rewrite (loadInfo_slow m prefix w1 id (Some e) w2 Hi He Hp).
  cbn [wantsFallback]. cbn [errors_Is] in Hne. rewrite Hne.
  cbn [fst snd afterPrimary cache world calls]. repeat split; try assumption.
  unfold countCall. rewrite count_occ_app. cbn. lia.
Qed.

(** C3.  The resolution state only ever goes from unresolved to resolved:
    a resolved machine stays exactly as it is under every call, and a call
    of [loadInfo] either leaves the cache alone or resolves it.  A call
    that returns an error leaves [cachedRawID], [cachedPrefix] and
    [initialized] untouched, with [initialized] false, so the next call
    runs the classifier and the primary source again, and the fallback
    again whenever the primary's new result asks for it. *)
Theorem resolution_monotone_failure_atomic (m : Machine W) :
  (initialized (cache m) = true ->
     loadInfo' m = (None, m) /\ forall c, snd (runCall' c m) = m) /\
  (cache (snd (loadInfo' m)) = cache m \/
   (initialized (cache m) = false /\ fst (loadInfo' m) = None /\
    initialized (cache (snd (loadInfo' m))) = true)) /\
  (forall e, fst (loadInfo' m) = Some e ->
     let m' := snd (loadInfo' m) in
     cachedRawID (cache m') = cachedRawID (cache m) /\
     cachedPrefix (cache m') = cachedPrefix (cache m) /\
     initialized (cache m') = initialized (cache m) /\
     initialized (cache m') = false /\
     forall prefix w1 id err w2,
       getEnvTypeFunc hooks (world m') = (prefix, w1) ->
       getMachineIDFunc hooks w1 = ((id, err), w2) ->
       calls (snd (loadInfo' m'))
       = calls m' ++ [CallEnvType; CallMachineID]
           ++ (if wantsFallback id err then [CallNetInterfaces] else [])).
Proof.
  pose proof (loadInfo_outcome m) as Ho.
  split; [|split].
  - intros Hi. split; [now apply loadInfo_fast|].
    intros c. now apply runCall_resolved.
  - destruct (loadInfo' m) as [[e|] m'] eqn:El; cbn [fst snd].
    + left. apply Ho.
    + destruct (initialized (cache m)) eqn:Hi.
      * left. rewrite loadInfo_fast in El by exact Hi. now injection El as <-.
      * right. auto.
  - intros e He. destruct (loadInfo' m) as [[e'|] m'] eqn:El;
      cbn [fst snd] in *; [|discriminate].
    destruct Ho as [Hi Hc]. rewrite Hc.
    repeat split; try assumption.
    intros prefix w1 id err w2 Henv Hprim.
    assert (Hi' : initialized (cache m') = false) by now rewrite Hc.
    apply (loadInfo_calls m' prefix w1 id err w2
             Hi' Henv Hprim).
Qed.

(** C4.  After [loadInfo] has succeeded, every further call of [loadInfo]
    returns nil on the fast path, and any sequence of calls of [loadInfo],
    [ID] and [ProtectedID] leaves the machine as it is: no hook is called
    again and the cache keeps its raw identity and prefix.  Counted from a
    machine that had made no call, the primary source has run once, however
    many calls follow the first successful [ID]. *)
Theorem loadInfo_idempotent_on_success (m0 m : Machine W) :
  loadInfo' m0 = (None, m) ->
  loadInfo' m = (None, m) /\
  (forall cs,
     snd (runCalls' cs m) = m /\
     loadInfo' (snd (runCalls' cs m)) = (None, snd (runCalls' cs m)) /\
     forall tag,
       countCall tag (calls (snd (runCalls' cs m))) = countCall tag (calls m)) /\
  (calls m0 = [] -> initialized (cache m0) = false ->
   forall cs, countCall CallMachineID (calls (snd (runCalls' cs m))) = 1).
Proof.
  intros Hl. pose proof (loadInfo_outcome m0) as Ho. rewrite Hl in Ho.
  split; [now apply loadInfo_fast|]. split.
  - intros cs. rewrite (runCalls_resolved cs m Ho).
    split; [reflexivity|]. split; [now apply loadInfo_fast | reflexivity].
  - intros Hc Hi cs. rewrite (runCalls_resolved cs m Ho).
    destruct (getEnvTypeFunc hooks (world m0)) as [prefix w1] eqn:He.
    destruct (getMachineIDFunc hooks w1) as [[id err] w2] eqn:Hp.
    pose proof (loadInfo_calls m0 prefix w1 id err w2 Hi He Hp) as Hcalls.
    rewrite Hl, Hc in Hcalls. cbn [snd app] in Hcalls. rewrite Hcalls.
    destruct (wantsFallback id err); reflexivity.
Qed.

Lemma protect_ok (s : string) :
  TrimSpace s <> "" -> protect s = (hexdigest (TrimSpace s), None).
Proof.
  intros H. rewrite protect_eq.
  apply is_empty_false in H. now rewrite H.
Qed.

Lemma protect_empty (s : string) :
  TrimSpace s = "" -> protect s = ("", Some emptyInputError).
Proof. intros H. rewrite protect_eq. now rewrite H. Qed.

Lemma protect_success (s h : string) :
  protect s = (h, None) -> TrimSpace s <> "" /\ h = hexdigest (TrimSpace s).
Proof.
  rewrite protect_eq. destruct (is_empty (TrimSpace s)) eqn:E;
    [discriminate|].
  intros H. injection H as <-. split; [now apply is_empty_false | reflexivity].
Qed.

Lemma scoped_differs_from_plain (raw key : string) :
  TrimSpace raw <> TrimSpace (raw ++ ":" ++ key).
Proof.
  intros E. apply (f_equal String.length) in E.
  rewrite TrimSpace_colon, length_append in E.
  pose proof (TrimSpace_length raw). cbn [append String.length] in E. lia.
Qed.

Lemma scoped_messages_equal_iff (raw k k' : string) :
  TrimSpace (raw ++ ":" ++ k) = TrimSpace (raw ++ ":" ++ k') <->
  TrimRightSpace k = TrimRightSpace k'.
Proof.
  rewrite !TrimSpace_colon. split; [|now intros ->].
  intros E. apply append_cancel_l in E. now apply (append_cancel_l ":") in E.
Qed.

Lemma digest_identifier_inj (prefix a b : string) :
  (prefix ++ ":" ++ hexdigest a)%string = (prefix ++ ":" ++ hexdigest b)%string ->
  a = b \/ collide a b.
Proof.
  intros H. apply append_cancel_l in H.
  apply (append_cancel_l ":") in H.
  apply hex_EncodeToString_inj in H.
  destruct (string_dec a b) as [E|E]; [now left | right; now split].
Qed.

(** X18.  A successful [ID] returns the cached prefix, a colon and the
    digest of the trimmed raw identity; a successful [ProtectedID] returns
    the cached prefix, a colon and the digest of the trimmed message made
    of the raw identity, a colon and the key; the digest is 64 lowercase
    hexadecimal digits.  The message hashed for a key is never the message
    hashed for [ID], and the messages hashed for two keys are the same
    exactly when the keys are equal once trailing white space is removed.
    So on one resolved machine, a scoped identifier equal to the plain one,
    or equal scoped identifiers for keys that differ beyond trailing white
    space, would be two different messages with one SHA-256 digest. *)
Theorem identifiers_format_and_messages :
  (forall m s m',
     ID hooks unicodeLower m = ((s, None), m') ->
     let c := cache m' in
     protect (cachedRawID c) = (hexdigest (TrimSpace (cachedRawID c)), None) /\
     s = (cachedPrefix c ++ ":" ++ fst (protect (cachedRawID c)))%string /\
     String.length (fst (protect (cachedRawID c))) = 64 /\
     string_forallb isLowerHex (fst (protect (cachedRawID c))) = true) /\
  (forall appID m s m',
     ProtectedID hooks unicodeLower appID m = ((s, None), m') ->
     let c := cache m' in
     let msg := (cachedRawID c ++ ":" ++ appID)%string in
     protect msg = (hexdigest (TrimSpace msg), None) /\
     s = (cachedPrefix c ++ ":" ++ fst (protect msg))%string /\
     String.length (fst (protect msg)) = 64 /\
     string_forallb isLowerHex (fst (protect msg)) = true) /\
  (forall raw k k',
     TrimSpace raw <> TrimSpace (raw ++ ":" ++ k) /\
     (TrimSpace (raw ++ ":" ++ k) = TrimSpace (raw ++ ":" ++ k') <->
      TrimRightSpace k = TrimRightSpace k')) /\
  (forall m k k' s0 sa sb,
     initialized (cache m) = true ->
     fst (ID hooks unicodeLower m) = (s0, None) ->
     fst (ProtectedID hooks unicodeLower k m) = (sa, None) ->
     fst (ProtectedID hooks unicodeLower k' m) = (sb, None) ->
     let raw := cachedRawID (cache m) in
     (sa = s0 -> collide (TrimSpace raw) (TrimSpace (raw ++ ":" ++ k))) /\
     (sa = sb -> TrimRightSpace k <> TrimRightSpace k' ->
      collide (TrimSpace (raw ++ ":" ++ k)) (TrimSpace (raw ++ ":" ++ k')))).
Proof.
  split; [|split; [|split]].
  - intros m s m' H. rewrite ID_eq in H.
    destruct (loadInfo' m) as [[e|] m1]; [discriminate|].
    destruct (protect (cachedRawID (cache m1))) as [h [e|]] eqn:Ep;
      [discriminate|].
    injection H as <- <-. cbv zeta. rewrite Ep. cbn [fst].
    destruct (protect_success _ _ Ep) as [Hne ->].
    split; [reflexivity|]. split; [reflexivity|]. apply hexdigest_shape.
  - intros appID m s m' H. rewrite ProtectedID_eq in H.
    destruct (loadInfo' m) as [[e|] m1]; [discriminate|].
    destruct (protect (cachedRawID (cache m1) ++ ":" ++ appID)) as [h [e|]]
      eqn:Ep; [discriminate|].
    injection H as <- <-. cbv zeta. rewrite Ep. cbn [fst].
    destruct (protect_success _ _ Ep) as [Hne ->].
    split; [reflexivity|]. split; [reflexivity|]. apply hexdigest_shape.
  - intros raw k k'.
    split; [apply scoped_differs_from_plain | apply scoped_messages_equal_iff].
  - intros m k k' s0 sa sb Hi H0 Ha Hb. cbv zeta.
    rewrite ID_eq, loadInfo_fast in H0 by exact Hi.
    rewrite ProtectedID_eq, loadInfo_fast in Ha by exact Hi.
    rewrite ProtectedID_eq, loadInfo_fast in Hb by exact Hi.
    cbn [fst] in H0, Ha, Hb.
    set (raw := cachedRawID (cache m)) in *.
    destruct (protect raw) as [h0 [e|]] eqn:E0; [discriminate|].
    destruct (protect (raw ++ ":" ++ k)) as [ha [e|]] eqn:Ea; [discriminate|].
    destruct (protect (raw ++ ":" ++ k')) as [hb [e|]] eqn:Eb; [discriminate|].
    injection H0 as <-. injection Ha as <-. injection Hb as <-.
    destruct (protect_success _ _ E0) as [_ ->].
    destruct (protect_success _ _ Ea) as [_ ->].
    destruct (protect_success _ _ Eb) as [_ ->].
    split.
    + intros E. apply digest_identifier_inj in E.
      destruct E as [E|[E1 E2]].
      * symmetry in E. now apply scoped_differs_from_plain in E.
      * split; [now apply not_eq_sym | now symmetry].
    + intros E Hk. apply digest_identifier_inj in E.
      destruct E as [E|E]; [|exact E].
      apply scoped_messages_equal_iff in E. contradiction.
Qed.

Lemma TrimSpace_empty_of_empty (s : string) : s = "" -> TrimSpace s = "".
Proof. intros ->. reflexivity. Qed.

(** C9, as the code has it.  After [loadInfo] has resolved an unresolved
    machine, the cached raw identity is not the empty string and
    [ProtectedID] succeeds for every key.  [ID] succeeds when the raw
    identity has a byte that is not white space, and fails with the
    empty-input error when it is white space only.  An identity that came
    from the hardware fallback always hashes; one that came from the primary
    source is the primary's string as it is, checked against [""] only. *)
Theorem resolved_identity_hashing
    (m : Machine W) prefix w1 id err w2 (m' : Machine W) :
  initialized (cache m) = false ->
  getEnvTypeFunc hooks (world m) = (prefix, w1) ->
  getMachineIDFunc hooks w1 = ((id, err), w2) ->
  loadInfo' m = (None, m') ->
  let raw := cachedRawID (cache m') in
  raw <> "" /\
  (forall appID,
     exists s, ProtectedID hooks unicodeLower appID m' = ((s, None), m')) /\
  (TrimSpace raw <> "" -> exists s, ID hooks unicodeLower m' = ((s, None), m')) /\
  (TrimSpace raw = "" ->
     ID hooks unicodeLower m' = (("", Some emptyInputError), m')) /\
  (wantsFallback id err = true -> TrimSpace raw <> "") /\
  (wantsFallback id err = false -> raw = id).
Proof.
  intros Hi He Hp Hl. cbv zeta.
  pose proof (loadInfo_outcome m) as Ho. rewrite Hl in Ho.
  assert (Hraw : (wantsFallback id err = true ->
                  TrimSpace (cachedRawID (cache m')) <> "") /\
                 (wantsFallback id err = false ->
                  cachedRawID (cache m') = id /\ id <> "")).
  { rewrite (loadInfo_slow m prefix w1 id err w2 Hi He Hp) in Hl.
    destruct (wantsFallback id err) eqn:Ef.
    - split; [intros _ | discriminate].
      destruct (netInterfaces hooks (world (afterPrimary m w2)))
        as [[ifaces nerr] w3] eqn:Hn.
      rewrite (getHardwareId_eq _ _ _ _ Hn), finishLoad_eq in Hl.
      destruct nerr as [e|]; [discriminate|].
      destruct (hardwareIdOf unicodeLower ifaces) as [hid [e|]] eqn:Eh;
        [discriminate|].
      cbn [fst snd] in Hl. injection Hl as <-. cbn [cache cachedRawID].
      apply startsHex_TrimSpace.
      now apply (hardwareIdOf_startsHex unicodeLower ifaces).
    - split; [discriminate | intros _].
      destruct err as [e|]; [discriminate|].
      injection Hl as <-. cbn [cache cachedRawID]. split; [reflexivity|].
      destruct id; [discriminate Ef | discriminate]. }
  destruct Hraw as [Hfb Hprim].
  split; [|split; [|split; [|split; [|split]]]].
  - destruct (wantsFallback id err).
    + intros E. now apply (Hfb eq_refl), TrimSpace_empty_of_empty.
    + destruct (Hprim eq_refl) as [-> Hne]. exact Hne.
  - intros appID. rewrite ProtectedID_eq, loadInfo_fast by exact Ho.
    rewrite protect_ok; [eauto|].
    rewrite TrimSpace_colon. apply append_not_empty.
  - intros Hne. rewrite ID_eq, loadInfo_fast by exact Ho.
    rewrite protect_ok by exact Hne. eauto.
  - intros Hem. rewrite ID_eq, loadInfo_fast by exact Ho.
    now rewrite protect_empty.
  - exact Hfb.
  - intros Hf. apply (Hprim Hf).
Qed.

Lemma unknown_runCall (c : ApiCall) (m : Machine W) prefix w1 :
  getMachineIDFunc hooks = id_unknown.getMachineID ->
  initialized (cache m) = false ->
  getEnvTypeFunc hooks (world m) = (prefix, w1) ->
  runCall' c m
  = (("", Some unsupportedError), afterPrimary m w1).
Proof.
  intros Hu Hi He.
  assert (Hp : getMachineIDFunc hooks w1 = (("", Some unsupportedError), w1))
    by now rewrite Hu.
  assert (Hl : loadInfo' m = (Some unsupportedError, afterPrimary m w1))
    by now rewrite
         (loadInfo_slow m prefix w1 "" (Some unsupportedError) w1 Hi He Hp).
  destruct c as [| |appID]; cbn [runCall].
  - unfold bind, ret. now rewrite Hl.
  - now rewrite ID_eq, Hl.
  - now rewrite ProtectedID_eq, Hl.
Qed.

(** C10.  With the [getMachineID] of id_unknown.go as the primary source,
    the error is "os not supported", which is not a not-found error; from
    an unresolved machine every call of [loadInfo], [ID] and [ProtectedID],
    in any sequence, returns that error, the cache stays as it was, and the
    interface enumeration is never called. *)
Theorem unsupported_platform_always_fails (m : Machine W) :
  getMachineIDFunc hooks = id_unknown.getMachineID ->
  initialized (cache m) = false ->
  (forall w, getMachineIDFunc hooks w = (("", Some unsupportedError), w)) /\
  errors_Is (Some unsupportedError) ErrNotExist = false /\
  fst (loadInfo' m) = Some unsupportedError /\
  forall cs,
    Forall (fun r => r = ("", Some unsupportedError)) (fst (runCalls' cs m)) /\
    length (fst (runCalls' cs m)) = length cs /\
    cache (snd (runCalls' cs m)) = cache m /\
    countCall CallNetInterfaces (calls (snd (runCalls' cs m)))
    = countCall CallNetInterfaces (calls m).
Proof.
  intros Hu Hi.
  split; [intros w; now rewrite Hu|]. split; [reflexivity|]. split.
  - destruct (getEnvTypeFunc hooks (world m)) as [prefix w1] eqn:He.
    pose proof (unknown_runCall DoLoadInfo m prefix w1 Hu Hi He) as H.
    cbn [runCall] in H. unfold bind, ret in H.
    destruct (loadInfo' m) as [e m1]. now injection H as -> _.
  - intros cs. revert m Hi. induction cs as [|c cs IH]; intros m Hi.
    + cbn. repeat split; constructor.
    + destruct (getEnvTypeFunc hooks (world m)) as [prefix w1] eqn:He.
      cbn [runCalls]. unfold bind, ret.
      rewrite (unknown_runCall c m prefix w1 Hu Hi He).
      specialize (IH (afterPrimary m w1) Hi).
      destruct (runCalls' cs (afterPrimary m w1)) as [rs m2].
      cbn [fst snd] in *. destruct IH as (H1 & H2 & H3 & H4).
      split; [now constructor|]. split; [cbn; now rewrite H2|].
      split; [exact H3|]. rewrite H4. cbn [afterPrimary calls].
      unfold countCall. rewrite count_occ_app. cbn. lia.
Qed.

(** C6.  [getHardwareId] collects the address of an interface exactly when
    the interface is not loopback, has a hardware address, and has none of
    [docker], [veth], [tun], [tap] in its lowercase name.  When the
    enumeration succeeds and no interface passes, it fails with the
    no-valid-interfaces error; otherwise it returns the sorted addresses
    joined by commas.  For [lo], [docker0], [veth1234] and [eth0] with
    address aa:bb:cc:dd:ee:ff it returns that address. *)
Theorem getHardwareId_filters_interfaces :
  (forall l,
     collectMacs unicodeLower l [] = map macOf (filter (eligible unicodeLower) l)) /\
  (forall l mac,
     In mac (collectMacs unicodeLower l []) <->
     exists i, In i l /\ eligible unicodeLower i = true /\ macOf i = mac) /\
  (forall i,
     eligible unicodeLower i = true <->
     N.land (Flags i) FlagLoopback = 0%N /\ HardwareAddr i <> [] /\
     forall marker, In marker ["docker"; "veth"; "tun"; "tap"] ->
       Contains (ToLower unicodeLower (Name i)) marker = false) /\
  (forall (m : Machine W) l w',
     netInterfaces hooks (world m) = ((l, None), w') ->
     (filter (eligible unicodeLower) l = [] ->
        fst (getHardwareId' m) = ("", Some noInterfacesError)) /\
     (filter (eligible unicodeLower) l <> [] ->
        fst (getHardwareId' m)
        = (Join (sort_Strings (map macOf (filter (eligible unicodeLower) l))) ",",
           None))) /\
  (forall (m : Machine W) w',
     netInterfaces hooks (world m) = (([lo; docker0; veth1234; eth0], None), w') ->
     fst (getHardwareId' m) = ("aa:bb:cc:dd:ee:ff", None)).
Proof.
  split; [|split; [|split; [|split]]].
  - intros l. now rewrite collectMacs_acc.
  - intros l mac. rewrite collectMacs_acc. cbn [app]. rewrite in_map_iff.
    split.
    + intros (i & Hm & Hin). apply filter_In in Hin. exists i. tauto.
    + intros (i & Hin & He & Hm). exists i. split; [exact Hm|].
      apply filter_In. tauto.
  - intros i. unfold eligible. rewrite !andb_true_iff, forallb_forall.
    assert (Hlb : negb (N.testbit (Flags i) 2) = true <->
                  N.land (Flags i) FlagLoopback = 0%N)
      by (rewrite <- loopback_bit; apply N.eqb_eq).
    assert (Hha : negb (match HardwareAddr i with
                        | [] => true
                        | _ :: _ => false
                        end) = true <-> HardwareAddr i <> [])
      by (destruct (HardwareAddr i); simpl; split; congruence).
    rewrite Hlb, Hha.
    split; [intros [[H1 H2] H3] | intros (H1 & H2 & H3)];
      repeat split; try assumption;
      intros marker Hm; specialize (H3 marker Hm);
      [now apply negb_true_iff in H3 | now apply negb_true_iff].
  - intros m l w' Hn. rewrite (getHardwareId_eq m l None w' Hn). cbn [fst].
    rewrite hardwareIdOf_eq.
    destruct (filter (eligible unicodeLower) l); split; congruence.
  - intros m w' Hn. rewrite (getHardwareId_eq m _ None w' Hn). reflexivity.
Qed.


End Resolver.

(* ================================================================= *)
(** ** Properties of the hasher *)

Section TrailingSpace.

Variable p1 : ascii -> bool.
Variable p2 : ascii -> ascii -> bool.
Variable p3 : ascii -> ascii -> ascii -> bool.

(** After a scan that consumed everything, appending one more white-space
    byte changes nothing; after one that stopped, the byte stays behind. *)
Lemma stripRunes_snoc_bounded (c : ascii) :
  p1 c = true ->
  (forall x, p2 x c = false) ->
  (forall x y, p3 x y c = false) ->
  forall n s, String.length s <= n ->
    stripRunes p1 p2 p3 (s ++ String c "")
    = match stripRunes p1 p2 p3 s with
      | EmptyString => EmptyString
      | String d t => (String d t ++ String c "")%string
      end.
Proof.
  intros H1 H2 H3.
  induction n as [|n IH]; intros s Hlen.
  - destruct s; simpl in Hlen; [|lia]. cbn. now rewrite H1.
  - destruct s as [|a0 [|a1 [|a2 s]]]; simpl in Hlen.
    + cbn. now rewrite H1.
    + cbn [append stripRunes]. destruct (p1 a0) eqn:E1.
      * now rewrite H1.
      * now rewrite H2.
    + cbn [append stripRunes]. destruct (p1 a0) eqn:E1.
      * apply (IH (String a1 "")). simpl. lia.
      * destruct (p2 a0 a1) eqn:E2; [now rewrite H1 | now rewrite H3].
    + cbn [append stripRunes]. destruct (p1 a0) eqn:E1.
      * apply (IH (String a1 (String a2 s))). simpl. lia.
      * destruct (p2 a0 a1) eqn:E2.
        -- apply (IH (String a2 s)). simpl. lia.
        -- destruct (p3 a0 a1 a2) eqn:E3; [apply IH; lia | reflexivity].
Qed.

End TrailingSpace.

Lemma asciiSpace_not_continuation (c : ascii) :
  isAsciiSpace c = true ->
  (forall x, isSpace2 x c = false) /\ (forall x y, isSpace3 x y c = false).
Proof.
  unfold isAsciiSpace, isSpace2, isSpace3. cbv zeta. intros H.
  assert (Hlt : (N_of_ascii c < 128)%N).
  { apply orb_prop in H. destruct H as [H|H].
    - apply andb_prop in H. destruct H as [_ H]. apply N.leb_le in H. lia.
    - apply N.eqb_eq in H. lia. }
  clear H. split; intros; split_tests; reflexivity.
Qed.

Lemma TrimLeftSpace_cons_space (c : ascii) (s : string) :
  isAsciiSpace c = true -> TrimLeftSpace (String c s) = TrimLeftSpace s.
Proof. intros H. unfold TrimLeftSpace. cbn [stripRunes]. now rewrite H. Qed.

Lemma TrimRightSpace_snoc_space (c : ascii) (s : string) :
  isAsciiSpace c = true ->
  TrimRightSpace (s ++ String c "") = TrimRightSpace s.
Proof.
  intros H. unfold TrimRightSpace.
  rewrite string_rev_app. cbn [string_rev string_rev_append append stripRunes].
  now rewrite H.
Qed.

Lemma TrimSpace_cons_space (c : ascii) (s : string) :
  isAsciiSpace c = true -> TrimSpace (String c s) = TrimSpace s.
Proof. intros H. unfold TrimSpace. now rewrite TrimLeftSpace_cons_space. Qed.

Lemma TrimSpace_snoc_space (c : ascii) (s : string) :
  isAsciiSpace c = true -> TrimSpace (s ++ String c "") = TrimSpace s.
Proof.
  intros H. destruct (asciiSpace_not_continuation c H) as [H2 H3].
  unfold TrimSpace, TrimLeftSpace.
  rewrite (stripRunes_snoc_bounded _ _ _ c H H2 H3 (String.length s) s (le_n _)).
  destruct (stripRunes isAsciiSpace isSpace2 isSpace3 s) as [|d t];
    [reflexivity|].
  now apply TrimRightSpace_snoc_space.
Qed.

(** C5.  [protect] trims white space from both ends of its input; when
    nothing is left it fails with the empty-input error, as it does on
    three spaces; otherwise it returns the SHA-256 digest of the trimmed
    input as 64 lowercase hexadecimal digits.  The digest of [test-id] is
    the reference value 6cc41d5e...9aa9fe. *)
Theorem protect_hashes_trimmed_input :
  (forall s,
     (TrimSpace s = "" -> protect s = ("", Some (errorString "empty machine id")))
     /\
     (TrimSpace s <> "" ->
      protect s
      = (hex_EncodeToString
           (SHA256.Sum256 (list_byte_of_string (TrimSpace s))), None) /\
      String.length (fst (protect s)) = 64 /\
      string_forallb isLowerHex (fst (protect s)) = true)) /\
  (forall c s,
     isAsciiSpace c = true ->
     protect (String c s) = protect s /\
     protect (s ++ String c "") = protect s) /\
  (forall s t, TrimSpace s = TrimSpace t -> protect s = protect t) /\
  protect "   " = ("", Some (errorString "empty machine id")) /\
  protect "test-id"
  = ("6cc41d5ec590ab78cccecf81ef167d418c309a4598e8e45fef78039f7d9aa9fe", None) /\
  protect (String "009" " test-id " ++ String "194" (String "160" (String "010" "")))
  = protect "test-id".
Proof.
  split; [|split; [|split; [|split; [|split]]]].
  - intros s. split.
    + apply protect_empty.
    + intros H. rewrite (protect_ok s H). cbn [fst].
      split; [reflexivity|]. apply hexdigest_shape.
  - intros c s H.
    rewrite !protect_eq, TrimSpace_cons_space, TrimSpace_snoc_space by exact H.
    split; reflexivity.
  - intros s t H. now rewrite !protect_eq, H.
  - vm_compute. reflexivity.
  - vm_compute. reflexivity.
  - vm_compute. reflexivity.
Qed.

(* ================================================================= *)
(** ** The properties on concrete machines *)

(** A primary source answering not-found sends [loadInfo] to the fallback,
    whose identity is cached. *)
Lemma loadInfo_fallback_witness :
  let r := loadInfo scriptedHooks noUnicode (freshMachine notFoundScript) in
  calls (snd r) = [CallEnvType; CallMachineID; CallNetInterfaces] /\
  fst r = None /\
  cache (snd r) = mkCache "aa:bb:cc:dd:ee:ff" "physical" true.
Proof.
  destruct (loadInfo_fallback_exactly_when Script scriptedHooks noUnicode
              (freshMachine notFoundScript) "physical" notFoundScript
              "" (Some ErrNotExist)
              (mkScript "physical" [] (enumeration notFoundScript)))
    as (_ & H2 & H3); [reflexivity | reflexivity | reflexivity |].
  destruct (H3 eq_refl) as (H4 & H5 & _).
  split; [exact H2|]. split; [exact H4 | exact (H5 eq_refl)].
Defined.

(** A permission error from the primary source is returned as it is. *)
Lemma loadInfo_fatal_error_witness :
  let r := loadInfo scriptedHooks noUnicode (freshMachine fatalThenGoodScript) in
  fst r = Some permissionDenied /\
  cache (snd r) = emptyCache /\
  calls (snd r) = [CallEnvType; CallMachineID].
Proof.
  destruct (loadInfo_fatal_error Script scriptedHooks noUnicode
              (freshMachine fatalThenGoodScript) "physical" fatalThenGoodScript
              "" permissionDenied
              (mkScript "physical" [("unique-id", None)] ([eth0], None)))
    as (H1 & H2 & _ & _ & H5 & _);
    [reflexivity | reflexivity | reflexivity | reflexivity |].
  split; [exact H1|]. split; [exact H2 | exact H5].
Defined.

(** After a failed call the cache is untouched and the next call queries
    the classifier and the primary source again. *)
Lemma resolution_retry_witness :
  let m' := snd (loadInfo scriptedHooks noUnicode
                   (freshMachine fatalThenGoodScript)) in
  cache m' = emptyCache /\
  calls (snd (loadInfo scriptedHooks noUnicode m'))
  = [CallEnvType; CallMachineID; CallEnvType; CallMachineID].
Proof.
  destruct (resolution_monotone_failure_atomic Script scriptedHooks noUnicode
              (freshMachine fatalThenGoodScript)) as (_ & _ & H).
  destruct (H permissionDenied eq_refl) as (H1 & H2 & H3 & H4 & H5).
  split; [reflexivity|].
  exact (H5 "physical"
           (mkScript "physical" [("unique-id", None)] ([eth0], None))
           "unique-id" None (mkScript "physical" [] ([eth0], None))
           eq_refl eq_refl).
Defined.

(** One successful [ID], then any calls: the primary source ran once. *)
Lemma loadInfo_idempotent_witness :
  let m := snd (loadInfo scriptedHooks noUnicode (freshMachine goodScript)) in
  snd (runCalls scriptedHooks noUnicode
         [DoID; DoProtectedID "my-app"; DoLoadInfo; DoID] m) = m /\
  countCall CallMachineID
    (calls (snd (runCalls scriptedHooks noUnicode
                   [DoID; DoProtectedID "my-app"; DoLoadInfo; DoID] m))) = 1.
Proof.
  destruct (loadInfo_idempotent_on_success Script scriptedHooks noUnicode
              (freshMachine goodScript)
              (snd (loadInfo scriptedHooks noUnicode (freshMachine goodScript)))
              eq_refl) as (_ & H2 & H3).
  split.
  - exact (proj1 (H2 [DoID; DoProtectedID "my-app"; DoLoadInfo; DoID])).
  - exact (H3 eq_refl eq_refl [DoID; DoProtectedID "my-app"; DoLoadInfo; DoID]).
Defined.

(** The digest of [test-id], and the failure on blank input. *)
Lemma protect_witness :
  protect "test-id"
  = (hex_EncodeToString (SHA256.Sum256 (list_byte_of_string "test-id")), None) /\
  String.length (fst (protect "test-id")) = 64 /\
  protect (String "010" "") = ("", Some (errorString "empty machine id")).
Proof.
  destruct protect_hashes_trimmed_input as (H & _).
  destruct (H "test-id") as (_ & H1). destruct (H (String "010" "")) as (H2 & _).
  destruct (H1 ltac:(vm_compute; discriminate)) as (H3 & H4 & _).
  split; [exact H3|]. split; [exact H4|]. apply H2. reflexivity.
Defined.

(** The four interfaces of the specification's example. *)
Lemma getHardwareId_filter_witness :
  fst (getHardwareId scriptedHooks noUnicode (freshMachine notFoundScript))
  = ("aa:bb:cc:dd:ee:ff", None) /\
  fst (getHardwareId scriptedHooks noUnicode (freshMachine goodScript))
  = ("", Some noInterfacesError).
Proof.
  destruct (getHardwareId_filters_interfaces Script scriptedHooks noUnicode)
    as (_ & _ & _ & H4 & H5).
  split.
  - exact (H5 (freshMachine notFoundScript) notFoundScript eq_refl).
  - exact (proj1 (H4 (freshMachine goodScript) [] goodScript eq_refl) eq_refl).
Defined.


(** The identifiers of the machine resolved to [test-machine-id]. *)
Lemma identifiers_witness :
  plainIdentifier
  = (cachedPrefix (cache resolvedMachine) ++ ":"
     ++ fst (protect (cachedRawID (cache resolvedMachine))))%string /\
  String.length (fst (protect (cachedRawID (cache resolvedMachine)))) = 64 /\
  scopedIdentifierA
  = (cachedPrefix (cache resolvedMachine) ++ ":"
     ++ fst (protect
               (cachedRawID (cache resolvedMachine) ++ ":" ++ "app-a")))%string /\
  TrimSpace ("test-machine-id" ++ ":" ++ "app-a")
  <> TrimSpace ("test-machine-id" ++ ":" ++ "app-b").
Proof.
  destruct (identifiers_format_and_messages Script scriptedHooks noUnicode)
    as (H1 & H2 & H3 & _).
  destruct (H1 resolvedMachine plainIdentifier resolvedMachine
              ltac:(vm_compute; reflexivity)) as (_ & Hs & Hl & _).
  destruct (H2 "app-a" resolvedMachine scopedIdentifierA resolvedMachine
              ltac:(vm_compute; reflexivity)) as (_ & Ha & _).
  split; [exact Hs|]. split; [exact Hl|]. split; [exact Ha|].
  intros E.
  apply (proj2 (H3 "test-machine-id" "app-a" "app-b")) in E.
  vm_compute in E. discriminate.
Defined.

(** C9 as stated fails: the primary source answers with one space, which
    is not the empty string, so [loadInfo] succeeds and caches it; [ID]
    then fails with the empty-input error, on this call and on every later
    one. *)
Lemma blank_identity_counterexample :
  let m := snd (loadInfo scriptedHooks noUnicode (freshMachine blankScript)) in
  fst (loadInfo scriptedHooks noUnicode (freshMachine blankScript)) = None /\
  cache m = mkCache " " "physical" true /\
  fst (ID scriptedHooks noUnicode m) = ("", Some (errorString "empty machine id")) /\
  fst (ID scriptedHooks noUnicode (snd (ID scriptedHooks noUnicode m)))
  = ("", Some (errorString "empty machine id")).
Proof. vm_compute. repeat split. Qed.

(** The fallback's identity hashes; the blank identity of the primary
    source does not, while its scoped identifier does. *)
Lemma resolved_identity_witness :
  (exists s,
     ID scriptedHooks noUnicode
       (snd (loadInfo scriptedHooks noUnicode (freshMachine notFoundScript)))
     = ((s, None),
        snd (loadInfo scriptedHooks noUnicode (freshMachine notFoundScript)))) /\
  (exists s,
     ProtectedID scriptedHooks noUnicode "app-a"
       (snd (loadInfo scriptedHooks noUnicode (freshMachine blankScript)))
     = ((s, None),
        snd (loadInfo scriptedHooks noUnicode (freshMachine blankScript)))) /\
  ID scriptedHooks noUnicode
    (snd (loadInfo scriptedHooks noUnicode (freshMachine blankScript)))
  = (("", Some emptyInputError),
     snd (loadInfo scriptedHooks noUnicode (freshMachine blankScript))).
Proof.
  destruct (resolved_identity_hashing Script scriptedHooks noUnicode
              (freshMachine notFoundScript) "physical" notFoundScript
              "" (Some ErrNotExist)
              (mkScript "physical" [] (enumeration notFoundScript))
              (snd (loadInfo scriptedHooks noUnicode (freshMachine notFoundScript)))
              eq_refl eq_refl eq_refl eq_refl) as (_ & _ & H3 & _ & H5 & _).
  destruct (resolved_identity_hashing Script scriptedHooks noUnicode
              (freshMachine blankScript) "physical" blankScript
              " " None (mkScript "physical" [] ([], None))
              (snd (loadInfo scriptedHooks noUnicode (freshMachine blankScript)))
              eq_refl eq_refl eq_refl eq_refl) as (_ & G2 & _ & G4 & _).
  split; [exact (H3 (H5 eq_refl))|]. split; [exact (G2 "app-a")|].
  exact (G4 eq_refl).
Defined.

(** A platform without a primary source: three calls, three errors, no
    enumeration of interfaces. *)
Lemma unsupported_platform_witness :
  let out := runCalls unknownHooks noUnicode
               [DoID; DoProtectedID "app-a"; DoLoadInfo]
               (freshMachine notFoundScript) in
  Forall (fun r => r = ("", Some unsupportedError)) (fst out) /\
  length (fst out) = 3 /\
  cache (snd out) = emptyCache /\
  countCall CallNetInterfaces (calls (snd out)) = 0.
Proof.
  destruct (unsupported_platform_always_fails Script unknownHooks noUnicode
              (freshMachine notFoundScript) eq_refl eq_refl)
    as (_ & _ & _ & H).
  exact (H [DoID; DoProtectedID "app-a"; DoLoadInfo]).
Defined.

(* ================================================================= *)
(** ** Further properties of machineid.go *)

Section CoreProperties.

Variable W : Type.
Variable hooks : Hooks W.
Variable unicodeLower : string -> string.

Local Abbreviation loadInfo' := (loadInfo hooks unicodeLower).
Local Abbreviation ID' := (ID hooks unicodeLower).
Local Abbreviation ProtectedID' := (ProtectedID hooks unicodeLower).
Local Abbreviation runCalls' := (runCalls hooks unicodeLower).
Local Abbreviation selected := (filter (eligible unicodeLower)).

(** One unresolved [loadInfo], with the results of its three hooks
    spelled out. *)
Lemma loadInfo_closed_form (m : Machine W) prefix w1 id err w2 ifaces nerr w3 :
  initialized (cache m) = false ->
  getEnvTypeFunc hooks (world m) = (prefix, w1) ->
  getMachineIDFunc hooks w1 = ((id, err), w2) ->
  netInterfaces hooks w2 = ((ifaces, nerr), w3) ->
  loadInfo' m =
  if wantsFallback id err then
    match nerr with
    | Some e => (Some e, afterFallback m w3)
    | None =>
        match selected ifaces with
        | [] => (Some noInterfacesError, afterFallback m w3)
        | _ :: _ =>
            (None,
             mkMachine
               (mkCache (Join (sort_Strings (map macOf (selected ifaces))) ",")
                  prefix true)
               w3 (calls m ++ [CallEnvType; CallMachineID; CallNetInterfaces]))
        end
    end
  else
    match err with
    | Some e => (Some e, afterPrimary m w2)
    | None =>
        (None, mkMachine (mkCache id prefix true) w2
                 (calls m ++ [CallEnvType; CallMachineID]))
    end.
Proof.
  intros Hi He Hp Hn.
  rewrite (loadInfo_slow W hooks unicodeLower m prefix w1 id err w2 Hi He Hp).
  destruct (wantsFallback id err); [|reflexivity].
  rewrite (getHardwareId_eq W hooks unicodeLower (afterPrimary m w2)
             ifaces nerr w3 Hn), finishLoad_eq.
  unfold afterFallback. cbn [afterPrimary cache calls world].
  rewrite <- app_assoc. cbn [app].
  destruct nerr as [e|]; [reflexivity|].
  rewrite hardwareIdOf_eq.
  destruct (selected ifaces); reflexivity.
Qed.

(** X1.  An unresolved [loadInfo] succeeds exactly in two cases: the
    primary source returned a non-empty identity without error, which is
    cached as it is; or the fallback was called for, the enumeration
    succeeded and at least one interface passed the filter, and the sorted,
    comma-joined addresses are cached.  The classifier's label is cached
    beside it in both cases. *)
Theorem loadInfo_success_cases
    (m : Machine W) prefix w1 id err w2 ifaces nerr w3 :
  initialized (cache m) = false ->
  getEnvTypeFunc hooks (world m) = (prefix, w1) ->
  getMachineIDFunc hooks w1 = ((id, err), w2) ->
  netInterfaces hooks w2 = ((ifaces, nerr), w3) ->
  (fst (loadInfo' m) = None <->
     (err = None /\ id <> "") \/
     (wantsFallback id err = true /\ nerr = None /\ selected ifaces <> [])) /\
  (err = None -> id <> "" ->
     cache (snd (loadInfo' m)) = mkCache id prefix true) /\
  (wantsFallback id err = true -> nerr = None -> selected ifaces <> [] ->
     cache (snd (loadInfo' m))
     = mkCache (Join (sort_Strings (map macOf (selected ifaces))) ",")
         prefix true).
Proof.
  intros Hi He Hp Hn.
  rewrite (loadInfo_closed_form m prefix w1 id err w2 ifaces nerr w3 Hi He Hp Hn).
  split; [|split].
  - destruct err as [e|]; cbn [wantsFallback].
    + destruct (errors_Is_chain e ErrNotExist).
      * destruct nerr as [e'|]; cbn [fst].
        -- split; [discriminate|].
           intros [[H _]|(_ & H & _)]; discriminate.
        -- destruct (selected ifaces) eqn:Es; cbn [fst].
           ++ split; [discriminate|].
              intros [[H _]|(_ & _ & H)]; [discriminate | congruence].
           ++ split; [|reflexivity]. intros _. right.
              repeat split; discriminate.
      * cbn [fst]. split; [discriminate|].
        intros [[H _]|(H & _)]; discriminate.
    + destruct id as [|c r].
      * destruct nerr as [e'|]; cbn [fst].
        -- split; [discriminate|].
           intros [[_ H]|(_ & H & _)]; [congruence | discriminate].
        -- destruct (selected ifaces) eqn:Es; cbn [fst].
           ++ split; [discriminate|].
              intros [[_ H]|(_ & _ & H)]; congruence.
           ++ split; [|reflexivity]. intros _. right.
              repeat split; discriminate.
      * cbn [fst]. split; [|reflexivity]. intros _. left.
        split; [reflexivity | discriminate].
  - intros -> Hne. destruct id; [congruence|]. reflexivity.
  - intros Hf -> Hs. rewrite Hf.
    destruct (selected ifaces); [congruence | reflexivity].
Qed.

(** X2.  Every error an unresolved [loadInfo] returns is the error of one
    of its sources, passed on as it is: the primary source's error when it
    is not a not-found error, the enumeration's error, or the
    no-valid-interfaces error when the enumeration succeeded and nothing
    passed the filter.  No other error is produced, and the cache is
    unchanged. *)
Theorem loadInfo_error_cases
    (m : Machine W) prefix w1 id err w2 ifaces nerr w3 (e : error) :
  initialized (cache m) = false ->
  getEnvTypeFunc hooks (world m) = (prefix, w1) ->
  getMachineIDFunc hooks w1 = ((id, err), w2) ->
  netInterfaces hooks w2 = ((ifaces, nerr), w3) ->
  fst (loadInfo' m) = Some e ->
  cache (snd (loadInfo' m)) = cache m /\
  ((err = Some e /\ errors_Is err ErrNotExist = false) \/
   (wantsFallback id err = true /\ nerr = Some e) \/
   (wantsFallback id err = true /\ nerr = None /\ selected ifaces = [] /\
    e = noInterfacesError)).
Proof.
  intros Hi He Hp Hn.
  rewrite (loadInfo_closed_form m prefix w1 id err w2 ifaces nerr w3 Hi He Hp Hn).
  destruct (wantsFallback id err) eqn:Ef.
  - destruct nerr as [e'|]; cbn [fst snd].
    + intros H. injection H as ->. split; [reflexivity|]. right. left. now split.
    + destruct (selected ifaces); cbn [fst snd]; [|discriminate].
      intros H. injection H as <-. split; [reflexivity|]. right. right.
      repeat split.
  - destruct err as [e'|]; cbn [fst snd]; [|discriminate].
    intros H. injection H as ->. split; [reflexivity|]. left.
    split; [reflexivity | exact Ef].
Qed.

(** X3.  [ProtectedID] fails exactly when [loadInfo] fails, with
    [loadInfo]'s error, and leaves the machine as [loadInfo] leaves it:
    the colon it puts before the key keeps the hashed message from being
    empty, so the hasher's empty-input error never comes out of
    [ProtectedID], whatever the cache holds. *)
Theorem ProtectedID_fails_only_with_loadInfo (appID : string) (m : Machine W) :
  snd (fst (ProtectedID' appID m)) = fst (loadInfo' m) /\
  snd (ProtectedID' appID m) = snd (loadInfo' m) /\
  (fst (loadInfo' m) = None ->
   fst (fst (ProtectedID' appID m))
   = (cachedPrefix (cache (snd (loadInfo' m))) ++ ":"
      ++ hexdigest (TrimLeftSpace (cachedRawID (cache (snd (loadInfo' m))))
                    ++ ":" ++ TrimRightSpace appID))%string).
Proof.
  rewrite ProtectedID_eq.
  destruct (loadInfo' m) as [[e|] m']; cbn [fst snd].
  - repeat split. discriminate.
  - rewrite protect_ok by (rewrite TrimSpace_colon; apply append_not_empty).
    rewrite TrimSpace_colon. cbn [fst snd]. repeat split.
Qed.

(** X4.  Trailing white space of the key does not reach the digest: two
    keys that are equal once trailing white space is removed give the same
    result of [ProtectedID] on every machine, as do a key and the key
    followed by an ASCII white-space byte. *)
Theorem ProtectedID_ignores_trailing_space (k k' : string) (m : Machine W) :
  TrimRightSpace k = TrimRightSpace k' ->
  ProtectedID' k m = ProtectedID' k' m /\
  forall c, isAsciiSpace c = true ->
    ProtectedID' (k ++ String c "") m = ProtectedID' k m.
Proof.
  assert (Hgen : forall a b, TrimRightSpace a = TrimRightSpace b ->
                   ProtectedID' a m = ProtectedID' b m).
  { intros a b H. rewrite !ProtectedID_eq.
    destruct (loadInfo' m) as [[e|] m']; [reflexivity|].
    rewrite !protect_eq, !TrimSpace_colon, H. reflexivity. }
  intros H. split; [now apply Hgen|].
  intros c Hc. apply Hgen. now apply TrimRightSpace_snoc_space.
Qed.

(** X5.  A cache resolved to a raw identity of white space only is a
    permanent failure of [ID]: after any sequence of calls the machine is
    unchanged and [ID] returns the empty-input error, with no new
    resolution attempt. *)
Theorem blank_identity_fails_forever (m : Machine W) (cs : list ApiCall) :
  initialized (cache m) = true ->
  TrimSpace (cachedRawID (cache m)) = "" ->
  snd (runCalls' cs m) = m /\
  ID' (snd (runCalls' cs m)) = (("", Some emptyInputError), m).
Proof.
  intros Hi Hb.
  rewrite (runCalls_resolved W hooks unicodeLower cs m Hi).
  split; [reflexivity|].
  rewrite ID_eq, loadInfo_fast by exact Hi.
  now rewrite protect_empty.
Qed.

(** X6.  A failed call does not stand in the way of a later one: after
    an error return, a call that finds the primary source answering with a
    non-empty identity resolves to that identity and to the label the
    classifier gives at that later call. *)
Theorem loadInfo_retry_succeeds
    (m : Machine W) (e : error) prefix w1 id w2 :
  fst (loadInfo' m) = Some e ->
  getEnvTypeFunc hooks (world (snd (loadInfo' m))) = (prefix, w1) ->
  getMachineIDFunc hooks w1 = ((id, None), w2) ->
  id <> "" ->
  fst (loadInfo' (snd (loadInfo' m))) = None /\
  cache (snd (loadInfo' (snd (loadInfo' m)))) = mkCache id prefix true.
Proof.
  intros Hf He Hp Hne.
  pose proof (loadInfo_outcome W hooks unicodeLower m) as Ho.
  destruct (loadInfo' m) as [[e'|] m'] eqn:El; [|discriminate].
  cbn [fst snd] in *. destruct Ho as [Hi Hc].
  assert (Hi' : initialized (cache m') = false) by now rewrite Hc.
  rewrite (loadInfo_slow W hooks unicodeLower m' prefix w1 id None w2 Hi' He Hp).
  destruct id; [congruence|]. split; reflexivity.
Qed.

End CoreProperties.

(* ================================================================= *)
(** ** The fallback identity as an encoding of the addresses *)

Lemma string_forallb_app (p : ascii -> bool) (a b : string) :
  string_forallb p (a ++ b) = string_forallb p a && string_forallb p b.
Proof.
  induction a as [|c a IH]; [reflexivity|].
  cbn [append string_forallb]. now rewrite IH, andb_assoc.
Qed.

Lemma string_forallb_impl (p q : ascii -> bool) (s : string) :
  (forall c, p c = true -> q c = true) ->
  string_forallb p s = true -> string_forallb q s = true.
Proof.
  intros Hpq. induction s as [|c s IH]; [reflexivity|].
  cbn [string_forallb]. intros H. apply andb_prop in H. destruct H as [H1 H2].
  now rewrite (Hpq c H1), IH.
Qed.

Lemma isBarrier_last_app (a b : string) :
  b <> "" -> isBarrier_last (a ++ b) = isBarrier_last b.
Proof.
  intros Hb. induction a as [|c a IH]; [reflexivity|].
  cbn [append]. destruct (a ++ b)%string as [|d t] eqn:E.
  - destruct a; [cbn in E; congruence | discriminate].
  - cbn [isBarrier_last]. exact IH.
Qed.

Lemma TrimSpace_fixed (s : string) :
  startsBarrier s = true -> isBarrier_last s = true -> TrimSpace s = s.
Proof.
  intros Hs Hl. unfold TrimSpace.
  assert (E : TrimLeftSpace s = s).
  { destruct s as [|c r]; [discriminate|].
    apply stripRunes_stop. now apply barrier_outside_forward. }
  rewrite E. now apply TrimRightSpace_last.
Qed.

Lemma hexHi_addr (b : byte) : isAddrChar (hexHi b) = true.
Proof.
  unfold isAddrChar. now rewrite (proj1 (hex_digits_lower b)).
Qed.

Lemma hexLo_addr (b : byte) : isAddrChar (hexLo b) = true.
Proof.
  unfold isAddrChar. now rewrite (proj2 (hex_digits_lower b)).
Qed.

Lemma HardwareAddr_loop_cons (first : bool) (b : byte) (r : list byte) :
  HardwareAddr_loop first (b :: r)
  = ((if first then "" else ":")
     ++ String (hexHi b) (String (hexLo b) (HardwareAddr_loop false r)))%string.
Proof. reflexivity. Qed.

Lemma HardwareAddr_loop_chars (first : bool) (a : list byte) :
  string_forallb isAddrChar (HardwareAddr_loop first a) = true.
Proof.
  revert first. induction a as [|b r IH]; intros first; [reflexivity|].
  rewrite HardwareAddr_loop_cons, string_forallb_app.
  cbn [string_forallb]. rewrite hexHi_addr, hexLo_addr, IH.
  destruct first; reflexivity.
Qed.

Lemma HardwareAddr_loop_last (first : bool) (b : byte) (r : list byte) :
  isBarrier_last (HardwareAddr_loop first (b :: r)) = true.
Proof.
  revert first b. induction r as [|b' r IH]; intros first b.
  - rewrite HardwareAddr_loop_cons. cbn [HardwareAddr_loop].
    rewrite isBarrier_last_app by discriminate. cbn [isBarrier_last].
    apply isLowerHex_isBarrier, hex_digits_lower.
  - rewrite HardwareAddr_loop_cons.
    rewrite isBarrier_last_app by discriminate.
    specialize (IH false b').
    destruct (HardwareAddr_loop false (b' :: r)) as [|c t] eqn:E;
      [discriminate IH|].
    cbn [isBarrier_last]. exact IH.
Qed.

Lemma HardwareAddr_loop_inj (first : bool) (a b : list byte) :
  HardwareAddr_loop first a = HardwareAddr_loop first b -> a = b.
Proof.
  revert first b. induction a as [|x a IH]; intros first [|y b];
    rewrite ?HardwareAddr_loop_cons.
  - reflexivity.
  - destruct first; discriminate.
  - destruct first; discriminate.
  - intros H.
    assert (H' : String (hexHi x) (String (hexLo x) (HardwareAddr_loop false a))
                 = String (hexHi y) (String (hexLo y) (HardwareAddr_loop false b))).
    { destruct first; [exact H|]. exact (append_cancel_l ":" _ _ H). }
    injection H' as Hh Hl Hr. f_equal; [|now apply (IH false)].
    rewrite <- (byte_of_hex_digits x), <- (byte_of_hex_digits y).
    now rewrite Hh, Hl.
Qed.

Lemma Join_cons (x : string) (rest : list string) (sep : string) :
  Join (x :: rest) sep = (x ++ joinTail rest sep)%string.
Proof.
  destruct rest; cbn [Join joinTail]; [now rewrite append_nil_r | reflexivity].
Qed.

Lemma Join_forallb (p : ascii -> bool) (l : list string) :
  p ","%char = true ->
  Forall (fun s => string_forallb p s = true) l ->
  string_forallb p (Join l ",") = true.
Proof.
  intros Hc. induction 1 as [|x rest Hx _ IH]; [reflexivity|].
  rewrite Join_cons, string_forallb_app, Hx.
  destruct rest; [reflexivity|].
  unfold joinTail. cbn [append string_forallb]. now rewrite Hc, IH.
Qed.

Lemma Join_last (l : list string) :
  l <> [] ->
  Forall (fun s => isBarrier_last s = true) l ->
  isBarrier_last (Join l ",") = true.
Proof.
  intros Hne Hall. induction Hall as [|x rest Hx _ IH]; [congruence|].
  rewrite Join_cons. destruct rest as [|y rest].
  - cbn [joinTail]. now rewrite append_nil_r.
  - unfold joinTail. rewrite isBarrier_last_app by discriminate.
    specialize (IH ltac:(discriminate)).
    destruct (Join (y :: rest) ",") as [|c t] eqn:E; [discriminate IH|].
    exact IH.
Qed.

(** Two comma-free strings followed by nothing or by a comma: equal wholes
    have equal parts. *)
Lemma commaFree_prefix (x y a b : string) :
  string_forallb (fun c => negb (Ascii.eqb c ",")) x = true ->
  string_forallb (fun c => negb (Ascii.eqb c ",")) y = true ->
  match a with EmptyString => True | String c _ => c = ","%char end ->
  match b with EmptyString => True | String c _ => c = ","%char end ->
  (x ++ a)%string = (y ++ b)%string -> x = y /\ a = b.
Proof.
  revert y. induction x as [|c x IH]; intros [|d y] Hx Hy Ha Hb H;
    cbn [append string_forallb] in *.
  - now split.
  - subst a. subst d. apply andb_prop in Hy. destruct Hy as [Hy _].
    now rewrite Ascii.eqb_refl in Hy.
  - subst b. subst c. apply andb_prop in Hx. destruct Hx as [Hx _].
    now rewrite Ascii.eqb_refl in Hx.
  - injection H as -> H.
    apply andb_prop in Hx. apply andb_prop in Hy.
    destruct (IH y (proj2 Hx) (proj2 Hy) Ha Hb H) as [-> ->]. now split.
Qed.

Lemma Join_inj (l l' : list string) :
  Forall (fun s => commaFree s = true) l ->
  Forall (fun s => commaFree s = true) l' ->
  Join l "," = Join l' "," -> l = l'.
Proof.
  intros Hl. revert l'. induction Hl as [|x rest Hx Hrest IH];
    intros l' Hl' H; destruct Hl' as [|y rest' Hy Hrest'].
  - reflexivity.
  - rewrite Join_cons in H. cbn [Join] in H.
    unfold commaFree in Hy. apply andb_prop in Hy.
    destruct y; [now destruct Hy | discriminate].
  - rewrite Join_cons in H. cbn [Join] in H.
    unfold commaFree in Hx. apply andb_prop in Hx.
    destruct x; [now destruct Hx | discriminate].
  - rewrite !Join_cons in H.
    unfold commaFree in Hx, Hy. apply andb_prop in Hx. apply andb_prop in Hy.
    destruct (commaFree_prefix x y (joinTail rest ",") (joinTail rest' ",")
                (proj2 Hx) (proj2 Hy)) as [-> Ht]; try exact H.
    + destruct rest; [exact I | reflexivity].
    + destruct rest'; [exact I | reflexivity].
    + f_equal. destruct rest as [|a rest], rest' as [|b rest'];
        cbn [joinTail append] in Ht; try discriminate; [reflexivity|].
      injection Ht as Ht. now apply IH.
Qed.

Lemma map_inj {A B : Type} (f : A -> B) (a b : list A) :
  (forall x y, f x = f y -> x = y) -> map f a = map f b -> a = b.
Proof.
  intros Hf. revert b. induction a as [|x a IH]; intros [|y b] H;
    try discriminate; [reflexivity|].
  injection H as Hx Hr. f_equal; [now apply Hf | now apply IH].
Qed.

Lemma Permutation_map_inj {A B : Type} (f : A -> B) (a b : list A) :
  (forall x y, f x = f y -> x = y) ->
  Permutation (map f a) (map f b) -> Permutation a b.
Proof.
  intros Hf H. destruct (Permutation_map_inv f b H) as (c & Hc & Hp).
  apply (map_inj f a c Hf) in Hc. subst c. now symmetry.
Qed.

Lemma sort_Strings_eq_iff (a b : list string) :
  sort_Strings a = sort_Strings b <-> Permutation a b.
Proof.
  split; [|apply sort_Strings_Permutation].
  intros H. rewrite (sort_Strings_is_Permutation a), H.
  symmetry. apply sort_Strings_is_Permutation.
Qed.

Section FallbackIdentity.

Variable unicodeLower : string -> string.

Local Abbreviation selected := (filter (eligible unicodeLower)).

Lemma selected_nonempty (l : list Interface) :
  Forall (fun i => HardwareAddr i <> []) (selected l).
Proof.
  apply Forall_forall. intros i Hi. apply filter_In in Hi.
  destruct Hi as [_ He]. unfold eligible in He.
  apply andb_prop in He. destruct He as [He _].
  apply andb_prop in He. destruct He as [_ He].
  destruct (HardwareAddr i); [discriminate | discriminate].
Qed.

Lemma macOf_shape (i : Interface) :
  HardwareAddr i <> [] ->
  string_forallb isAddrChar (macOf i) = true /\
  isBarrier_last (macOf i) = true /\
  commaFree (macOf i) = true.
Proof.
  intros Hne. unfold macOf, HardwareAddr_String.
  destruct (HardwareAddr i) as [|b r]; [congruence|].
  pose proof (HardwareAddr_loop_chars true (b :: r)) as Hc.
  split; [exact Hc|]. split; [apply HardwareAddr_loop_last|].
  unfold commaFree. apply andb_true_intro. split; [reflexivity|].
  revert Hc. apply string_forallb_impl. intros c Hcc.
  destruct (Ascii.eqb_spec c ","); [subst c; discriminate | reflexivity].
Qed.

Lemma sorted_macs_shape (l : list Interface) :
  Forall (fun s => string_forallb isAddrChar s = true /\
                   isBarrier_last s = true /\ commaFree s = true)
    (sort_Strings (map macOf (selected l))).
Proof.
  eapply Permutation_Forall; [apply sort_Strings_is_Permutation|].
  apply Forall_map.
  eapply Forall_impl; [|apply selected_nonempty].
  intros i Hi. now apply macOf_shape.
Qed.

(** X7.  A fallback identity has no white space to trim: it consists of
    lowercase hexadecimal digits, colons and commas only, [protect] hashes
    it byte for byte, and hashing it never fails. *)
Theorem fallback_identity_hashed_as_is (l : list Interface) (hid : string) :
  hardwareIdOf unicodeLower l = (hid, None) ->
  string_forallb isMacChar hid = true /\
  TrimSpace hid = hid /\
  protect hid = (hexdigest hid, None).
Proof.
  intros H.
  pose proof (hardwareIdOf_startsHex unicodeLower l hid H) as Hs.
  rewrite hardwareIdOf_eq in H.
  pose proof (sorted_macs_shape l) as Hshape.
  pose proof (Permutation_length
                (sort_Strings_is_Permutation (map macOf (selected l)))) as Hlen.
  destruct (selected l) as [|i f] eqn:Es; [discriminate|].
  remember (sort_Strings (map macOf (i :: f))) as sorted eqn:Esort.
  injection H as H. subst hid.
  assert (Hchars : string_forallb isMacChar (Join sorted ",") = true).
  { apply Join_forallb; [reflexivity|].
    eapply Forall_impl; [|exact Hshape]. intros s (Hc & _).
    revert Hc. apply string_forallb_impl. intros c Hc.
    unfold isMacChar. unfold isAddrChar in Hc.
    apply orb_prop in Hc. destruct Hc as [-> | ->];
      [reflexivity | now rewrite orb_true_r]. }
  assert (Hfix : TrimSpace (Join sorted ",") = Join sorted ",").
  { apply TrimSpace_fixed.
    - destruct (Join sorted ",") as [|c r]; [discriminate Hs|].
      cbn [startsHex startsBarrier] in *. now apply isLowerHex_isBarrier.
    - apply Join_last.
      + intros E. subst sorted. rewrite E in Hlen. discriminate.
      + eapply Forall_impl; [|exact Hshape]. now intros s (_ & Hl & _). }
  split; [exact Hchars|]. split; [exact Hfix|].
  rewrite protect_ok; rewrite Hfix; [reflexivity|].
  destruct (Join sorted ","); [discriminate Hs | discriminate].
Qed.

(** X8.  The fallback identity determines the hardware addresses it was
    built from, and nothing else: two enumerations on which
    [getHardwareId] succeeds give the same identity exactly when the
    addresses of their eligible interfaces are the same up to order.
    Interface names, indices and flags of eligible interfaces, and all
    ineligible interfaces, leave no trace. *)
Theorem fallback_identity_canonical (l l' : list Interface) (h h' : string) :
  hardwareIdOf unicodeLower l = (h, None) ->
  hardwareIdOf unicodeLower l' = (h', None) ->
  (h = h' <->
   Permutation (eligibleAddrs unicodeLower l) (eligibleAddrs unicodeLower l')).
Proof.
  intros H H'. rewrite hardwareIdOf_eq in H, H'.
  pose proof (sorted_macs_shape l) as Hs.
  pose proof (sorted_macs_shape l') as Hs'.
  destruct (selected l) as [|i f] eqn:Es; [discriminate|].
  destruct (selected l') as [|i' f'] eqn:Es'; [discriminate|].
  unfold eligibleAddrs. rewrite Es, Es'.
  remember (map macOf (i :: f)) as A eqn:EA.
  remember (map macOf (i' :: f')) as B eqn:EB.
  injection H as H. injection H' as H'. subst h h'.
  assert (HAB : Permutation A B <->
                Permutation (map HardwareAddr (i :: f))
                  (map HardwareAddr (i' :: f'))).
  { subst A B. unfold macOf. rewrite <- !(map_map HardwareAddr HardwareAddr_String).
    split; [|apply Permutation_map].
    apply Permutation_map_inj. intros x y. apply HardwareAddr_loop_inj. }
  rewrite <- HAB, <- sort_Strings_eq_iff.
  split; [|now intros ->].
  apply Join_inj.
  - eapply Forall_impl; [|exact Hs]. now intros s (_ & _ & Hc).
  - eapply Forall_impl; [|exact Hs']. now intros s (_ & _ & Hc).
Qed.

End FallbackIdentity.

(* ================================================================= *)
(** ** Trimming twice *)

Section StripTwice.

Variable p1 : ascii -> bool.
Variable p2 : ascii -> ascii -> bool.
Variable p3 : ascii -> ascii -> ascii -> bool.

Lemma stripRunes_stuck (s : string) :
  headRune p1 p2 p3 s = false -> stripRunes p1 p2 p3 s = s.
Proof.
  destruct s as [|c0 [|c1 [|c2 s]]]; cbn [headRune stripRunes]; intros H;
    try reflexivity.
  - apply orb_false_elim in H. destruct H as [-> _]. reflexivity.
  - apply orb_false_elim in H. destruct H as [-> H].
    apply orb_false_elim in H. destruct H as [-> _]. reflexivity.
  - apply orb_false_elim in H. destruct H as [-> H].
    apply orb_false_elim in H. destruct H as [-> ->]. reflexivity.
Qed.

Lemma stripRunes_head_bounded :
  forall n s, String.length s <= n ->
    headRune p1 p2 p3 (stripRunes p1 p2 p3 s) = false.
Proof.
  induction n as [|n IH]; intros s Hlen.
  - destruct s; simpl in Hlen; [reflexivity | lia].
  - destruct s as [|c0 [|c1 [|c2 s]]]; simpl in Hlen.
    + reflexivity.
    + cbn [stripRunes]. destruct (p1 c0) eqn:E1; [reflexivity|].
      cbn [headRune]. now rewrite E1.
    + cbn [stripRunes]. destruct (p1 c0) eqn:E1.
      * apply (IH (String c1 "")). simpl. lia.
      * destruct (p2 c0 c1) eqn:E2; [reflexivity|].
        cbn [headRune]. now rewrite E1, E2.
    + cbn [stripRunes]. destruct (p1 c0) eqn:E1.
      * apply (IH (String c1 (String c2 s))). simpl. lia.
      * destruct (p2 c0 c1) eqn:E2.
        -- apply (IH (String c2 s)). simpl. lia.
        -- destruct (p3 c0 c1 c2) eqn:E3; [apply IH; lia|].
           cbn [headRune]. now rewrite E1, E2, E3.
Qed.

Lemma stripRunes_idem (s : string) :
  stripRunes p1 p2 p3 (stripRunes p1 p2 p3 s) = stripRunes p1 p2 p3 s.
Proof.
  apply stripRunes_stuck.
  apply (stripRunes_head_bounded (String.length s)). lia.
Qed.

Lemma headRune_app (a b : string) :
  headRune p1 p2 p3 a = true -> headRune p1 p2 p3 (a ++ b) = true.
Proof.
  destruct a as [|c0 [|c1 [|c2 a]]]; cbn [headRune append]; intros H;
    try discriminate.
  - rewrite orb_false_r in H. now rewrite H.
  - rewrite orb_false_r in H. apply orb_prop in H.
    destruct H as [-> | ->]; [reflexivity|].
    rewrite orb_true_r. destruct b; now rewrite ?orb_true_r.
  - exact H.
Qed.

Lemma stripRunes_suffix_bounded :
  forall n s, String.length s <= n ->
    exists p, s = (p ++ stripRunes p1 p2 p3 s)%string.
Proof.
  induction n as [|n IH]; intros s Hlen.
  - destruct s; simpl in Hlen; [now exists "" | lia].
  - destruct s as [|c0 [|c1 [|c2 s]]]; simpl in Hlen.
    + now exists "".
    + cbn [stripRunes]. destruct (p1 c0); [now exists (String c0 "")|].
      now exists "".
    + cbn [stripRunes]. destruct (p1 c0).
      * destruct (IH (String c1 "")) as [p Hp]; [simpl; lia|].
        exists (String c0 p). cbn [append]. f_equal. exact Hp.
      * destruct (p2 c0 c1); [now exists (String c0 (String c1 ""))|].
        now exists "".
    + cbn [stripRunes]. destruct (p1 c0).
      * destruct (IH (String c1 (String c2 s))) as [p Hp]; [simpl; lia|].
        exists (String c0 p). cbn [append]. f_equal. exact Hp.
      * destruct (p2 c0 c1).
        -- destruct (IH (String c2 s)) as [p Hp]; [simpl; lia|].
           exists (String c0 (String c1 p)). cbn [append]. do 2 f_equal. exact Hp.
        -- destruct (p3 c0 c1 c2); [|now exists ""].
           destruct (IH s) as [p Hp]; [lia|].
           exists (String c0 (String c1 (String c2 p))). cbn [append].
           do 3 f_equal. exact Hp.
Qed.

End StripTwice.

Lemma TrimRightSpace_prefix (t : string) :
  exists q, t = (TrimRightSpace t ++ q)%string.
Proof.
  unfold TrimRightSpace.
  destruct (stripRunes_suffix_bounded isAsciiSpace
              (fun cl cf => isSpace2 cf cl) (fun cl cm cf => isSpace3 cf cm cl)
              (String.length (string_rev t)) (string_rev t) (le_n _))
    as [p Hp].
  exists (string_rev p).
  rewrite <- string_rev_app, <- Hp. now rewrite string_rev_involutive.
Qed.

Lemma TrimRightSpace_idem (t : string) :
  TrimRightSpace (TrimRightSpace t) = TrimRightSpace t.
Proof.
  unfold TrimRightSpace. now rewrite string_rev_involutive, stripRunes_idem.
Qed.

(** [strings.TrimSpace] leaves a trimmed string alone. *)
Lemma TrimSpace_idem (s : string) : TrimSpace (TrimSpace s) = TrimSpace s.
Proof.
  unfold TrimSpace.
  set (t := TrimLeftSpace s).
  assert (Ht : headRune isAsciiSpace isSpace2 isSpace3 t = false)
    by (apply (stripRunes_head_bounded _ _ _ (String.length s)); lia).
  destruct (TrimRightSpace_prefix t) as [q Hq].
  assert (Hu : headRune isAsciiSpace isSpace2 isSpace3 (TrimRightSpace t)
               = false).
  { destruct (headRune _ _ _ (TrimRightSpace t)) eqn:E; [|reflexivity].
    apply (headRune_app _ _ _ _ q) in E. rewrite <- Hq in E. congruence. }
  unfold TrimLeftSpace at 1. rewrite (stripRunes_stuck _ _ _ _ Hu).
  apply TrimRightSpace_idem.
Qed.

(* ================================================================= *)
(** ** The Linux files *)

Section Linux.

Variable W : Type.
Variable os : LinuxOS W.
Variable unicodeLower : string -> string.
Variable net : W -> (list Interface * option error) * W.

Local Abbreviation hooks := (linuxHooks os unicodeLower net).
Local Abbreviation loadInfo' := (loadInfo hooks unicodeLower).
Local Abbreviation ID' := (ID hooks unicodeLower).

(** [getMachineID] of id_linux.go, by the result of reading the file. *)
Lemma linux_getMachineID_eq (w : W) b rerr w' :
  os_ReadFile os "/etc/machine-id" w = ((b, rerr), w') ->
  id_linux.getMachineID os w =
  (match rerr with
   | Some e => ("", Some e)
   | None =>
       if is_empty (TrimSpace (string_of_list_byte b))
       then ("", Some (errorString "empty machine-id file"))
       else (TrimSpace (string_of_list_byte b), None)
   end, w').
Proof.
  intros H. unfold id_linux.getMachineID, id_linux.readFile, io_bind, io_ret.
  rewrite H. destruct rerr as [e|]; [reflexivity|].
  destruct (is_empty (TrimSpace (string_of_list_byte b))); reflexivity.
Qed.

(** X9.  What id_linux.go returns as an identity is trimmed and not empty,
    so the hasher takes it as it is and cannot fail on it; hence on Linux,
    once [loadInfo] has resolved, [ID] succeeds, whether the identity came
    from the machine-id file or from the fallback. *)
Theorem linux_identity_always_hashes :
  (forall w id w',
     id_linux.getMachineID os w = ((id, None), w') ->
     id <> "" /\ TrimSpace id = id /\ protect id = (hexdigest id, None)) /\
  (forall (m m' : Machine W),
     initialized (cache m) = false ->
     loadInfo' m = (None, m') ->
     exists s, ID' m' = ((s, None), m')).
Proof.
  assert (Hid : forall w id w',
            id_linux.getMachineID os w = ((id, None), w') ->
            id <> "" /\ TrimSpace id = id).
  { intros w id w' H.
    destruct (os_ReadFile os "/etc/machine-id" w) as [[b rerr] w1] eqn:Hr.
    rewrite (linux_getMachineID_eq w b rerr w1 Hr) in H.
    destruct rerr as [e|]; [discriminate|].
    destruct (is_empty (TrimSpace (string_of_list_byte b))) eqn:Ee;
      [discriminate|].
    injection H as <- _. split; [now apply is_empty_false|].
    apply TrimSpace_idem. }
  split.
  - intros w id w' H. destruct (Hid w id w' H) as [Hne Ht].
    repeat split; try assumption.
    rewrite protect_ok; rewrite Ht; [reflexivity | exact Hne].
  - intros m m' Hi Hl.
    pose proof (loadInfo_outcome W hooks unicodeLower m) as Ho.
    rewrite Hl in Ho.
    assert (Hraw : TrimSpace (cachedRawID (cache m')) <> "").
    { destruct (getEnvTypeFunc hooks (world m)) as [prefix w1] eqn:He.
      destruct (getMachineIDFunc hooks w1) as [[id err] w2] eqn:Hp.
      destruct (netInterfaces hooks w2) as [[ifaces nerr] w3] eqn:Hn.
      rewrite (loadInfo_closed_form W hooks unicodeLower m prefix w1 id err w2
                 ifaces nerr w3 Hi He Hp Hn) in Hl.
      destruct (wantsFallback id err) eqn:Ef.
      - destruct nerr as [e|]; [discriminate|].
        destruct (filter (eligible unicodeLower) ifaces) as [|i f] eqn:Es;
          [discriminate|].
        injection Hl as <-. cbn [cache cachedRawID].
        apply startsHex_TrimSpace.
        apply (hardwareIdOf_startsHex unicodeLower ifaces).
        rewrite hardwareIdOf_eq, Es. reflexivity.
      - destruct err as [e|]; [discriminate|].
        injection Hl as <-. cbn [cache cachedRawID].
        destruct (Hid w1 id w2 Hp) as [Hne Ht]. now rewrite Ht. }
    rewrite ID_eq, loadInfo_fast by exact Ho.
    rewrite protect_ok by exact Hraw. eauto.
Qed.

(** X10.  On Linux the hardware fallback runs exactly when reading
    /etc/machine-id fails with a not-found error.  A file that is there
    but holds white space only is a hard failure: [loadInfo] returns
    "empty machine-id file", does not enumerate the interfaces and leaves
    the cache unresolved.  Any other read error is returned as it is. *)
Theorem linux_fallback_only_when_file_missing
    (m : Machine W) prefix w1 b rerr w2 :
  initialized (cache m) = false ->
  platform_linux.getEnvironmentType os unicodeLower (world m) = (prefix, w1) ->
  os_ReadFile os "/etc/machine-id" w1 = ((b, rerr), w2) ->
  calls (snd (loadInfo' m))
  = calls m ++ [CallEnvType; CallMachineID]
      ++ (if errors_Is rerr ErrNotExist then [CallNetInterfaces] else []) /\
  (rerr = None -> TrimSpace (string_of_list_byte b) = "" ->
     loadInfo' m
     = (Some (errorString "empty machine-id file"), afterPrimary m w2)) /\
  (rerr = None -> TrimSpace (string_of_list_byte b) <> "" ->
     loadInfo' m
     = (None,
        mkMachine (mkCache (TrimSpace (string_of_list_byte b)) prefix true) w2
          (calls m ++ [CallEnvType; CallMachineID]))) /\
  (forall e, rerr = Some e -> errors_Is rerr ErrNotExist = false ->
     loadInfo' m = (Some e, afterPrimary m w2)).
Proof.
  intros Hi He Hr.
  pose proof (linux_getMachineID_eq w1 b rerr w2 Hr) as Hp.
  destruct rerr as [e|].
  - pose proof (loadInfo_calls W hooks unicodeLower m prefix w1 _ _ w2 Hi He Hp)
      as Hc.
    pose proof (loadInfo_slow W hooks unicodeLower m prefix w1 _ _ w2 Hi He Hp)
      as Hl.
    cbn [wantsFallback errors_Is] in *.
    split; [exact Hc|]. split; [discriminate|]. split; [discriminate|].
    intros e' He' Hne. injection He' as <-. now rewrite Hne in Hl.
  - destruct (is_empty (TrimSpace (string_of_list_byte b))) eqn:Ee.
    + pose proof (loadInfo_calls W hooks unicodeLower m prefix w1 _ _ w2
                    Hi He Hp) as Hc.
      pose proof (loadInfo_slow W hooks unicodeLower m prefix w1 _ _ w2
                    Hi He Hp) as Hl.
      split; [exact Hc|]. split; [intros _ _; exact Hl|].
      split; [|discriminate].
      intros _ Hne. apply is_empty_false in Hne. congruence.
    + pose proof (loadInfo_calls W hooks unicodeLower m prefix w1 _ _ w2
                    Hi He Hp) as Hc.
      pose proof (loadInfo_slow W hooks unicodeLower m prefix w1 _ _ w2
                    Hi He Hp) as Hl.
      cbn [wantsFallback errors_Is] in *.
      destruct (TrimSpace (string_of_list_byte b)) as [|c r] eqn:Et;
        [discriminate|].
      split; [exact Hc|]. split; [intros _ E; discriminate|].
      split; [intros _ _; exact Hl | discriminate].
Qed.

(** X11.  The Linux classifier always answers, and with one of four
    labels: docker, container, vm or physical. *)
Theorem linux_classifier_vocabulary (w : W) :
  In (fst (platform_linux.getEnvironmentType os unicodeLower w))
    ["docker"; "container"; "vm"; "physical"].
Proof.
  unfold platform_linux.getEnvironmentType, io_bind, io_ret.
  destruct (osStat os "/.dockerenv" w) as [err w1].
  destruct (is_nil err); [cbn; auto 6|].
  destruct (osReadFile os "/proc/1/cgroup" w1) as [r1 w2].
  destruct (platform_linux.cgroupSaysContainer r1); [cbn; auto 6|].
  destruct (osReadFile os "/sys/class/dmi/id/product_name" w2) as [r2 w3].
  destruct (platform_linux.productSaysVM unicodeLower r2); [cbn; auto 6|].
  destruct (osReadFile os "/sys/class/dmi/id/sys_vendor" w3) as [r3 w4].
  destruct (platform_linux.vendorSaysVM unicodeLower r3); cbn; auto 6.
Qed.

(** X12.  Failures inside the Linux classifier never come out of it: when
    the stat of the marker file and the three reads fail, whatever the
    errors, the answer is physical.  And the marker file decides alone:
    when its stat succeeds the answer is docker and no file is read. *)
Theorem linux_classifier_default_and_marker (w : W) :
  (forall e w1 b1 e1 w2 b2 e2 w3 b3 e3 w4,
     osStat os "/.dockerenv" w = (Some e, w1) ->
     osReadFile os "/proc/1/cgroup" w1 = ((b1, Some e1), w2) ->
     osReadFile os "/sys/class/dmi/id/product_name" w2 = ((b2, Some e2), w3) ->
     osReadFile os "/sys/class/dmi/id/sys_vendor" w3 = ((b3, Some e3), w4) ->
     platform_linux.getEnvironmentType os unicodeLower w = ("physical", w4)) /\
  (forall w1, osStat os "/.dockerenv" w = (None, w1) ->
   platform_linux.getEnvironmentType os unicodeLower w = ("docker", w1)).
Proof.
  unfold platform_linux.getEnvironmentType, io_bind, io_ret. split.
  - intros e w1 b1 e1 w2 b2 e2 w3 b3 e3 w4 Hs H1 H2 H3.
    rewrite Hs. cbn [is_nil]. rewrite H1.
    cbn [platform_linux.cgroupSaysContainer]. rewrite H2.
    cbn [platform_linux.productSaysVM]. rewrite H3. reflexivity.
  - intros w1 Hs. now rewrite Hs.
Qed.

End Linux.

(* ================================================================= *)
(** ** [Split], [Trim] and [Contains] *)

Lemma string_forallb_rev (p : ascii -> bool) (s : string) :
  string_forallb p (string_rev s) = string_forallb p s.
Proof.
  induction s as [|c s IH]; [reflexivity|].
  rewrite string_rev_cons, string_forallb_app, IH.
  cbn [string_forallb]. rewrite andb_true_r. apply andb_comm.
Qed.

Lemma HasPrefix_app (x p b : string) :
  HasPrefix x p = true -> HasPrefix (x ++ b) p = true.
Proof.
  revert x. induction p as [|d p IH]; intros [|c x]; cbn [HasPrefix append];
    try reflexivity; try discriminate.
  - destruct b; reflexivity.
  - intros H. apply andb_prop in H. destruct H as [-> H]. now apply IH.
Qed.

Lemma Contains_app_r (x p b : string) :
  Contains x p = true -> Contains (x ++ b) p = true.
Proof.
  induction x as [|c x IH]; cbn [Contains append]; intros H.
  - rewrite orb_false_r in H.
    apply (HasPrefix_app "" p b) in H. cbn [append] in H.
    destruct b; cbn [Contains]; now rewrite H.
  - apply orb_prop in H. destruct H as [H|H].
    + apply (HasPrefix_app (String c x) p b) in H. cbn [append] in H.
      now rewrite H.
    + rewrite (IH H). apply orb_true_r.
Qed.

Lemma Contains_app_l (a y p : string) :
  Contains y p = true -> Contains (a ++ y) p = true.
Proof.
  intros H. induction a as [|c a IH]; [exact H|].
  cbn [append Contains]. rewrite IH. apply orb_true_r.
Qed.

(** A string without the pattern has no piece with the pattern. *)
Lemma Contains_piece (a x b p : string) :
  Contains (a ++ x ++ b) p = false -> Contains x p = false.
Proof.
  intros H. destruct (Contains x p) eqn:E; [|reflexivity].
  apply (Contains_app_r x p b), (Contains_app_l a) in E. congruence.
Qed.

Section SplitByte.

Variable d : ascii.

Lemma splitFrom_byte_step (c : ascii) (r cur : string) :
  splitFrom (String d "") 0 cur (String c r)
  = if Ascii.eqb c d
    then string_rev cur :: splitFrom (String d "") 0 "" r
    else splitFrom (String d "") 0 (String c cur) r.
Proof.
  cbn [splitFrom HasPrefix String.length Nat.sub].
  destruct r; now rewrite andb_true_r.
Qed.

(** Every piece is a stretch of the string that was split. *)
Lemma splitFrom_byte_pieces (s cur x : string) :
  In x (splitFrom (String d "") 0 cur s) ->
  exists a b, (string_rev cur ++ s)%string = (a ++ x ++ b)%string.
Proof.
  revert cur. induction s as [|c r IH]; intros cur Hin.
  - cbn [splitFrom In] in Hin. destruct Hin as [<-|[]].
    exists "", "". cbn [append]. reflexivity.
  - rewrite splitFrom_byte_step in Hin. destruct (Ascii.eqb c d).
    + destruct Hin as [<-|Hin].
      * exists "", (String c r). reflexivity.
      * destruct (IH "" Hin) as (a & b & Hab). cbn [string_rev string_rev_append append] in Hab.
        exists (string_rev cur ++ String c a)%string, b.
        rewrite Hab, !append_assoc. reflexivity.
    + destruct (IH (String c cur) Hin) as (a & b & Hab).
      exists a, b. rewrite <- Hab, string_rev_cons, append_assoc. reflexivity.
Qed.

(** No piece holds the separator, and the pieces hold no byte that the
    string does not. *)
Lemma splitFrom_byte_chars (p : ascii -> bool) (s cur : string) :
  string_forallb p cur = true ->
  string_forallb p s = true \/ (forall c, p c = negb (Ascii.eqb c d)) ->
  Forall (fun x => string_forallb p x = true)
    (splitFrom (String d "") 0 cur s).
Proof.
  revert cur. induction s as [|c r IH]; intros cur Hcur Hs.
  - cbn [splitFrom]. constructor; [|constructor].
    now rewrite string_forallb_rev.
  - rewrite splitFrom_byte_step.
    assert (Hr : string_forallb p r = true \/
                 (forall c, p c = negb (Ascii.eqb c d))).
    { destruct Hs as [Hs|Hs]; [left|now right].
      cbn [string_forallb] in Hs. apply andb_prop in Hs. apply Hs. }
    destruct (Ascii.eqb c d) eqn:E.
    + constructor; [now rewrite string_forallb_rev|].
      now apply IH.
    + apply IH; [|exact Hr]. cbn [string_forallb]. rewrite Hcur, andb_true_r.
      destruct Hs as [Hs|Hs].
      * cbn [string_forallb] in Hs. apply andb_prop in Hs. apply Hs.
      * now rewrite Hs, E.
Qed.

End SplitByte.

Section TrimSet.

Variable cutset : string.

Lemma trimLeftSet_head (s : string) :
  headOutside cutset (trimLeftSet cutset s).
Proof.
  induction s as [|c s IH]; [exact I|].
  cbn [trimLeftSet]. destruct (inCutset cutset c) eqn:E; [exact IH | exact E].
Qed.

Lemma trimLeftSet_stuck (s : string) :
  headOutside cutset s -> trimLeftSet cutset s = s.
Proof.
  destruct s as [|c s]; [reflexivity|]. cbn [headOutside trimLeftSet].
  now intros ->.
Qed.

Lemma trimLeftSet_suffix (s : string) :
  exists p, s = (p ++ trimLeftSet cutset s)%string.
Proof.
  induction s as [|c s [p Hp]]; [now exists ""|].
  cbn [trimLeftSet]. destruct (inCutset cutset c); [|now exists ""].
  exists (String c p). cbn [append]. now f_equal.
Qed.

Lemma trimLeftSet_forallb (p : ascii -> bool) (s : string) :
  string_forallb p s = true -> string_forallb p (trimLeftSet cutset s) = true.
Proof.
  induction s as [|c s IH]; [reflexivity|].
  cbn [trimLeftSet]. destruct (inCutset cutset c); [|now intros H].
  cbn [string_forallb]. intros H. apply andb_prop in H. now apply IH.
Qed.

Lemma Trim_forallb (p : ascii -> bool) (s : string) :
  string_forallb p s = true -> string_forallb p (Trim s cutset) = true.
Proof.
  intros H. unfold Trim, trimRightSet.
  apply trimLeftSet_forallb. rewrite string_forallb_rev.
  apply trimLeftSet_forallb. now rewrite string_forallb_rev.
Qed.

Lemma headOutside_rev_suffix (p t : string) :
  t <> "" ->
  headOutside cutset (string_rev (p ++ t)) ->
  headOutside cutset (string_rev t).
Proof.
  intros Hne. rewrite string_rev_app.
  destruct (string_rev t) as [|c r] eqn:E; [intros _; exact I|].
  cbn [append headOutside]. now intros H.
Qed.

(** The result of [Trim] has nothing left to trim, at either end. *)
Lemma Trim_idem (s : string) :
  Trim (Trim s cutset) cutset = Trim s cutset /\
  headOutside cutset (Trim s cutset) /\
  headOutside cutset (string_rev (Trim s cutset)).
Proof.
  unfold Trim at 2 3 4.
  set (u := trimRightSet cutset s). set (t := trimLeftSet cutset u).
  assert (Hu : headOutside cutset (string_rev u)).
  { unfold u, trimRightSet. rewrite string_rev_involutive.
    apply trimLeftSet_head. }
  assert (Ht : headOutside cutset t) by apply trimLeftSet_head.
  assert (Hr : headOutside cutset (string_rev t)).
  { destruct (trimLeftSet_suffix u) as [p Hp]. fold t in Hp.
    destruct t as [|c r] eqn:Et; [exact I|].
    rewrite Hp in Hu. now apply (headOutside_rev_suffix p (String c r)). }
  split; [|split; assumption].
  unfold Trim, trimRightSet.
  rewrite (trimLeftSet_stuck _ Hr), string_rev_involutive.
  now apply trimLeftSet_stuck.
Qed.

End TrimSet.

(* ================================================================= *)
(** ** The macOS files *)

Lemma Split_lines_without (output pattern : string) :
  Contains output pattern = false ->
  Forall (fun line => Contains line pattern = false) (Split output lineFeed).
Proof.
  intros H. apply Forall_forall. intros line Hin.
  destruct (splitFrom_byte_pieces "010" output "" line Hin) as (a & b & Hab).
  cbn [string_rev string_rev_append append] in Hab. rewrite Hab in H.
  now apply (Contains_piece a line b).
Qed.

Lemma scanLines_without (lines : list string) :
  Forall (fun line => Contains line "IOPlatformUUID" = false) lines ->
  id_darwin.scanLines lines = ("", None).
Proof.
  induction 1 as [|line rest Hl _ IH]; [reflexivity|].
  cbn [id_darwin.scanLines]. now rewrite Hl.
Qed.

(** What the scan of the lines can return. *)
Lemma scanLines_cases (lines : list string) :
  snd (id_darwin.scanLines lines) = None /\
  (fst (id_darwin.scanLines lines) = "" \/
   exists line part,
     In line lines /\ In part (Split line "=") /\
     fst (id_darwin.scanLines lines) = Trim part spaceQuote).
Proof.
  induction lines as [|line rest [IH1 IH2]]; [split; [reflexivity | now left]|].
  cbn [id_darwin.scanLines].
  assert (Hrest : snd (id_darwin.scanLines rest) = None /\
            (fst (id_darwin.scanLines rest) = "" \/
             exists l part,
               In l (line :: rest) /\ In part (Split l "=") /\
               fst (id_darwin.scanLines rest) = Trim part spaceQuote)).
  { split; [exact IH1|]. destruct IH2 as [H|(l & part & Hl & Hp & H)];
      [now left | right]. exists l, part. repeat split; try assumption.
    now right. }
  destruct (Contains line "IOPlatformUUID"); [|exact Hrest].
  destruct (Split line "=") as [|p0 [|p1 [|p2 ps]]] eqn:Es;
    cbn [length Nat.eqb]; try exact Hrest.
  cbn [nth fst snd]. split; [reflexivity|]. right.
  exists line, p1. rewrite Es. repeat split; [now left | right; now left].
Qed.

Section Darwin.

Variable W : Type.
Variable os : DarwinOS W.
Variable unicodeLower : string -> string.
Variable net : W -> (list Interface * option error) * W.

Local Abbreviation hooks := (darwinHooks os net).
Local Abbreviation loadInfo' := (loadInfo hooks unicodeLower).

Lemma darwin_getMachineID_eq (w : W) out err w' :
  runCommand os "ioreg" ["-rd1"; "-c"; "IOPlatformExpertDevice"] w
  = ((out, err), w') ->
  id_darwin.getMachineID os w =
  (match err with
   | Some e => ("", Some e)
   | None => id_darwin.scanLines (Split (string_of_list_byte out) lineFeed)
   end, w').
Proof.
  intros H. unfold id_darwin.getMachineID, io_bind, io_ret. rewrite H.
  destruct err; reflexivity.
Qed.

(** X13.  The macOS classifier answers vm or physical and nothing else,
    and a failure of the sysctl command never comes out of it: the answer
    is then physical. *)
Theorem darwin_classifier_vocabulary (w : W) :
  In (fst (platform_darwin.getEnvironmentType os w)) ["vm"; "physical"] /\
  (forall out e w',
     runCommand os "sysctl" ["machdep.cpu.features"] w = ((out, Some e), w') ->
     platform_darwin.getEnvironmentType os w = ("physical", w')).
Proof.
  unfold platform_darwin.getEnvironmentType, io_bind, io_ret. split.
  - destruct (runCommand os "sysctl" ["machdep.cpu.features"] w)
      as [[out [e|]] w1]; [cbn; auto 6|].
    destruct (Contains (string_of_list_byte out) "VMM"); cbn; auto 6.
  - intros out e w' H. now rewrite H.
Qed.

(** X14.  When ioreg runs but prints no line with IOPlatformUUID,
    id_darwin.go returns the empty string without error, and [loadInfo]
    then goes to the hardware fallback, whose result it takes. *)
Theorem darwin_missing_uuid_uses_fallback
    (m : Machine W) prefix w1 out w2 :
  initialized (cache m) = false ->
  platform_darwin.getEnvironmentType os (world m) = (prefix, w1) ->
  runCommand os "ioreg" ["-rd1"; "-c"; "IOPlatformExpertDevice"] w1
  = ((out, None), w2) ->
  Contains (string_of_list_byte out) "IOPlatformUUID" = false ->
  id_darwin.getMachineID os w1 = (("", None), w2) /\
  calls (snd (loadInfo' m))
  = calls m ++ [CallEnvType; CallMachineID; CallNetInterfaces] /\
  loadInfo' m
  = (let (r, m3) := getHardwareId hooks unicodeLower (afterPrimary m w2) in
     finishLoad prefix r m3).
Proof.
  intros Hi He Hr Hc.
  assert (Hp : id_darwin.getMachineID os w1 = (("", None), w2)).
  { rewrite (darwin_getMachineID_eq w1 out None w2 Hr).
    now rewrite (scanLines_without _ (Split_lines_without _ _ Hc)). }
  split; [exact Hp|]. split.
  - now rewrite (loadInfo_calls W hooks unicodeLower m prefix w1 "" None w2
                   Hi He Hp).
  - now rewrite (loadInfo_slow W hooks unicodeLower m prefix w1 "" None w2
                   Hi He Hp).
Qed.

(** X15.  id_darwin.go fails only when the command fails, with the
    command's error.  An identity it returns holds no equals sign and no
    line feed and has nothing left to trim: it neither starts nor ends with
    a space or a double quote. *)
Theorem darwin_identity_shape (w : W) (id : string) (err : option error) (w' : W) :
  id_darwin.getMachineID os w = ((id, err), w') ->
  (forall e, err = Some e ->
     id = "" /\
     exists out,
       runCommand os "ioreg" ["-rd1"; "-c"; "IOPlatformExpertDevice"] w
       = ((out, Some e), w')) /\
  (err = None ->
     string_forallb plainByte id = true /\
     Trim id spaceQuote = id /\
     headOutside spaceQuote id /\
     headOutside spaceQuote (string_rev id)).
Proof.
  destruct (runCommand os "ioreg" ["-rd1"; "-c"; "IOPlatformExpertDevice"] w)
    as [[out cerr] w1] eqn:Hr.
  rewrite (darwin_getMachineID_eq w out cerr w1 Hr).
  destruct cerr as [e|].
  - intros H. injection H as <- <- <-. split; [|discriminate].
    intros e' He'. injection He' as <-. split; [reflexivity | now exists out].
  - intros H.
    destruct (scanLines_cases (Split (string_of_list_byte out) lineFeed))
      as [Hn Hc].
    assert (Eid : fst (id_darwin.scanLines
                         (Split (string_of_list_byte out) lineFeed)) = id)
      by (injection H as H _; now rewrite H).
    assert (Eerr : snd (id_darwin.scanLines
                          (Split (string_of_list_byte out) lineFeed)) = err)
      by (injection H as H _; now rewrite H).
    rewrite Eid in Hc. rewrite Eerr in Hn. subst err.
    split; [discriminate|]. intros _.
    destruct Hc as [->|(line & part & Hl & Hp & ->)].
    + repeat split.
    + assert (Hline : string_forallb (fun c => negb (Ascii.eqb c "010")) line
                      = true).
      { pose proof (splitFrom_byte_chars "010"
                      (fun c => negb (Ascii.eqb c "010"))
                      (string_of_list_byte out) "" eq_refl
                      (or_intror (fun c => eq_refl))) as Hall.
        rewrite Forall_forall in Hall. now apply Hall. }
      assert (Hpart : string_forallb plainByte part = true).
      { pose proof (splitFrom_byte_chars "="
                      (fun c => negb (Ascii.eqb c "="))
                      line "" eq_refl (or_intror (fun c => eq_refl))) as H1.
        pose proof (splitFrom_byte_chars "="
                      (fun c => negb (Ascii.eqb c "010"))
                      line "" eq_refl (or_introl Hline)) as H2.
        rewrite Forall_forall in H1, H2.
        specialize (H1 part Hp). specialize (H2 part Hp).
        clear - H1 H2. induction part as [|c r IH]; [reflexivity|].
        cbn [string_forallb] in *. apply andb_prop in H1. apply andb_prop in H2.
        unfold plainByte at 1. rewrite (proj1 H1), (proj1 H2).
        now apply IH. }
      split; [now apply Trim_forallb|]. apply Trim_idem.
Qed.

End Darwin.

(* ================================================================= *)
(** ** platform_windows.go *)

Section Windows.

Variable W K : Type.
Variable reg : Registry W K.
Variable unicodeLower : string -> string.

Local Abbreviation getEnvironmentType' :=
  (platform_windows.getEnvironmentType reg unicodeLower).

(** [checkKeyExists] on the recording registry: the key is opened and
    closed at once, or was not opened. *)
Lemma checkKeyExists_recorded (subKey : string) (w : W)
    (log : list (RegEvent K)) :
  exists b w' evs,
    platform_windows.checkKeyExists (recording reg) subKey (w, log)
    = (b, (w', log ++ evs)) /\
    (evs = [] \/ exists k, evs = [Opened k; Closed k]).
Proof.
  unfold platform_windows.checkKeyExists, io_bind, io_ret.
  cbn [recording OpenKey CloseKey fst snd].
  destruct (OpenKey reg subKey w) as [[k [e|]] w1]; cbn [fst snd].
  - exists false, w1, []. rewrite app_nil_r. split; [reflexivity | now left].
  - destruct (CloseKey reg k w1) as [u w2].
    exists true, w2, [Opened k; Closed k].
    rewrite <- app_assoc. split; [reflexivity | right; now exists k].
Qed.

Lemma getString_recorded (k : K) (name : string) (w : W)
    (log : list (RegEvent K)) :
  exists v w',
    platform_windows.getString (recording reg) k name (w, log)
    = (v, (w', log ++ [Queried k])).
Proof.
  unfold platform_windows.getString, io_bind, io_ret.
  cbn [recording GetStringValue fst snd].
  destruct (GetStringValue reg k name w) as [[v [e|]] w1]; eauto.
Qed.

Lemma Bracketed_app (a b : list (RegEvent K)) :
  Bracketed a -> Bracketed b -> Bracketed (a ++ b).
Proof.
  induction 1 as [|k n rest _ IH]; intros Hb; [exact Hb|].
  cbn [app]. rewrite <- app_assoc. cbn [app].
  constructor. now apply IH.
Qed.

Lemma Bracketed_check (evs : list (RegEvent K)) :
  evs = [] \/ (exists k, evs = [Opened k; Closed k]) -> Bracketed evs.
Proof.
  intros [->|[k ->]]; [constructor|].
  apply (Bracketed_session k 0 []). constructor.
Qed.


(** X17.  The Windows classifier leaks no registry key and touches none
    that is not open: on every run, whatever the registry answers, each key
    it opened is read only while open and is closed before the next one is
    opened and before the function returns. *)
Theorem windows_classifier_closes_keys (w : W) (log : list (RegEvent K)) :
  exists evs,
    snd (snd (platform_windows.getEnvironmentType (recording reg) unicodeLower
                (w, log)))
    = log ++ evs /\
    Bracketed evs.
Proof.
  unfold platform_windows.getEnvironmentType.
  unfold io_bind at 1.
  destruct (checkKeyExists_recorded
              "SOFTWARE\Microsoft\Virtual Machine\Guest\Parameters" w log)
    as (b1 & w1 & e1 & H1 & B1). rewrite H1.
  apply Bracketed_check in B1.
  destruct b1; [exists e1; now split|].
  unfold io_bind at 1.
  destruct (checkKeyExists_recorded
              "SOFTWARE\VMware, Inc.\VMware Tools" w1 (log ++ e1))
    as (b2 & w2 & e2 & H2 & B2). rewrite H2.
  apply Bracketed_check in B2.
  destruct b2;
    [exists (e1 ++ e2); rewrite app_assoc; split;
       [reflexivity | now apply Bracketed_app]|].
  unfold io_bind at 1.
  destruct (checkKeyExists_recorded
              "SOFTWARE\Oracle\VirtualBox Guest Additions" w2
              ((log ++ e1) ++ e2))
    as (b3 & w3 & e3 & H3 & B3). rewrite H3.
  apply Bracketed_check in B3.
  assert (B123 : Bracketed ((e1 ++ e2) ++ e3))
    by (apply Bracketed_app; [now apply Bracketed_app | exact B3]).
  destruct b3;
    [exists ((e1 ++ e2) ++ e3); rewrite !app_assoc; now split|].
  unfold io_bind at 1.
  cbn [recording OpenKey fst snd].
  destruct (OpenKey reg "HARDWARE\DESCRIPTION\System\BIOS" w3)
    as [[k [e|]] w4]; cbn [fst snd].
  - exists ((e1 ++ e2) ++ e3). rewrite !app_assoc. now split.
  - unfold io_bind at 1.
    destruct (getString_recorded k "SystemProductName" w4
                ((((log ++ e1) ++ e2) ++ e3) ++ [Opened k]))
      as (model & w5 & Hm). rewrite Hm.
    unfold io_bind at 1.
    destruct (getString_recorded k "SystemManufacturer" w5
                (((((log ++ e1) ++ e2) ++ e3) ++ [Opened k]) ++ [Queried k]))
      as (man & w6 & Hman). rewrite Hman.
    unfold io_bind, io_ret. cbn [recording CloseKey fst snd].
    destruct (CloseKey reg k w6) as [u w7]. cbn [fst snd].
    exists (((e1 ++ e2) ++ e3) ++ [Opened k; Queried k; Queried k; Closed k]).
    split; [now rewrite <- !app_assoc|].
    apply Bracketed_app; [exact B123|].
    apply (Bracketed_session k 2 []). constructor.
Qed.

End Windows.

(* ================================================================= *)
(** ** The further properties on concrete machines *)

(** The fallback resolves the machine whose primary source is missing. *)
Lemma loadInfo_success_witness :
  fst (loadInfo scriptedHooks noUnicode (freshMachine notFoundScript)) = None /\
  cache (snd (loadInfo scriptedHooks noUnicode (freshMachine notFoundScript)))
  = mkCache "aa:bb:cc:dd:ee:ff" "physical" true.
Proof.
  destruct (loadInfo_success_cases Script scriptedHooks noUnicode
              (freshMachine notFoundScript) "physical" notFoundScript
              "" (Some ErrNotExist)
              (mkScript "physical" [] (enumeration notFoundScript))
              [lo; docker0; veth1234; eth0] None
              (mkScript "physical" [] (enumeration notFoundScript))
              eq_refl eq_refl eq_refl eq_refl) as (H1 & _ & H3).
  split.
  - apply H1. right. repeat split. discriminate.
  - apply H3; [reflexivity | reflexivity | discriminate].
Defined.

(** A failed enumeration comes out as it is and the cache stays empty. *)
Lemma loadInfo_error_witness :
  cache (snd (loadInfo scriptedHooks noUnicode (freshMachine networkDownScript)))
  = emptyCache /\
  ((Some ErrNotExist = Some networkDown /\
    errors_Is (Some ErrNotExist) ErrNotExist = false) \/
   (wantsFallback "" (Some ErrNotExist) = true /\
    Some networkDown = Some networkDown) \/
   (wantsFallback "" (Some ErrNotExist) = true /\
    Some networkDown = None /\
    filter (eligible noUnicode) [] = [] /\ networkDown = noInterfacesError)).
Proof.
  exact (loadInfo_error_cases Script scriptedHooks noUnicode
           (freshMachine networkDownScript) "physical" networkDownScript
           "" (Some ErrNotExist)
           (mkScript "physical" [] (enumeration networkDownScript))
           [] (Some networkDown)
           (mkScript "physical" [] (enumeration networkDownScript))
           networkDown eq_refl eq_refl eq_refl eq_refl eq_refl).
Defined.

(** The scoped identifier of the resolved machine. *)
Lemma ProtectedID_witness :
  fst (fst (ProtectedID scriptedHooks noUnicode "app-a" resolvedMachine))
  = ("test-env:" ++ hexdigest "test-machine-id:app-a")%string.
Proof.
  exact (proj2 (proj2 (ProtectedID_fails_only_with_loadInfo Script
                         scriptedHooks noUnicode "app-a" resolvedMachine))
           eq_refl).
Defined.

(** Trailing white space of a key. *)
Lemma ProtectedID_trailing_space_witness :
  ProtectedID scriptedHooks noUnicode ("app-a " ++ lineFeed) resolvedMachine
  = ProtectedID scriptedHooks noUnicode "app-a" resolvedMachine /\
  ProtectedID scriptedHooks noUnicode "app-a " resolvedMachine
  = ProtectedID scriptedHooks noUnicode "app-a" resolvedMachine.
Proof.
  destruct (ProtectedID_ignores_trailing_space Script scriptedHooks noUnicode
              ("app-a " ++ lineFeed) "app-a" resolvedMachine eq_refl)
    as [H1 _].
  destruct (ProtectedID_ignores_trailing_space Script scriptedHooks noUnicode
              "app-a" "app-a" resolvedMachine eq_refl) as [_ H2].
  split; [exact H1 | exact (H2 " "%char eq_refl)].
Defined.

(** The machine resolved to one space keeps failing. *)
Lemma blank_identity_witness :
  let m := snd (loadInfo scriptedHooks noUnicode (freshMachine blankScript)) in
  ID scriptedHooks noUnicode
    (snd (runCalls scriptedHooks noUnicode [DoID; DoLoadInfo; DoID] m))
  = (("", Some emptyInputError), m).
Proof.
  exact (proj2 (blank_identity_fails_forever Script scriptedHooks noUnicode
                  (snd (loadInfo scriptedHooks noUnicode
                          (freshMachine blankScript)))
                  [DoID; DoLoadInfo; DoID] eq_refl eq_refl)).
Defined.

(** A permission error, then a good answer. *)
Lemma loadInfo_retry_witness :
  let m := snd (loadInfo scriptedHooks noUnicode
                  (freshMachine fatalThenGoodScript)) in
  fst (loadInfo scriptedHooks noUnicode m) = None /\
  cache (snd (loadInfo scriptedHooks noUnicode m))
  = mkCache "unique-id" "physical" true.
Proof.
  exact (loadInfo_retry_succeeds Script scriptedHooks noUnicode
           (freshMachine fatalThenGoodScript) permissionDenied "physical"
           (mkScript "physical" [("unique-id", None)] ([eth0], None))
           "unique-id" (mkScript "physical" [] ([eth0], None))
           eq_refl eq_refl eq_refl ltac:(discriminate)).
Defined.

(** The identity of the two cards. *)
Lemma fallback_identity_witness :
  TrimSpace "11:11:11:11:11:11,22:22:22:22:22:22"
  = "11:11:11:11:11:11,22:22:22:22:22:22" /\
  protect "11:11:11:11:11:11,22:22:22:22:22:22"
  = (hexdigest "11:11:11:11:11:11,22:22:22:22:22:22", None).
Proof.
  destruct (fallback_identity_hashed_as_is noUnicode [eth1_22; eth0_11]
              "11:11:11:11:11:11,22:22:22:22:22:22" eq_refl) as (_ & H2 & H3).
  split; [exact H2 | exact H3].
Defined.

(** The same two cards among others, in another order. *)
Lemma fallback_canonical_witness :
  "11:11:11:11:11:11,22:22:22:22:22:22" = "11:11:11:11:11:11,22:22:22:22:22:22"
  <-> Permutation (eligibleAddrs noUnicode [eth1_22; eth0_11])
        (eligibleAddrs noUnicode [lo; eth0_11; docker0; eth1_22]).
Proof.
  exact (fallback_identity_canonical noUnicode [eth1_22; eth0_11]
           [lo; eth0_11; docker0; eth1_22]
           "11:11:11:11:11:11,22:22:22:22:22:22"
           "11:11:11:11:11:11,22:22:22:22:22:22" eq_refl eq_refl).
Defined.

(** A Linux host with a machine-id file. *)
Lemma linux_identity_witness :
  protect machineIdOfPlainLinux = (hexdigest machineIdOfPlainLinux, None) /\
  exists s,
    ID (linuxHooks fileOS noUnicode oneCard) noUnicode
      (snd (loadInfo (linuxHooks fileOS noUnicode oneCard) noUnicode
              (freshMachine plainLinux)))
    = ((s, None),
       snd (loadInfo (linuxHooks fileOS noUnicode oneCard) noUnicode
              (freshMachine plainLinux))).
Proof.
  destruct (linux_identity_always_hashes FileSystem fileOS noUnicode oneCard)
    as [H1 H2].
  split.
  - exact (proj2 (proj2 (H1 plainLinux machineIdOfPlainLinux plainLinux
                           eq_refl))).
  - exact (H2 (freshMachine plainLinux)
             (snd (loadInfo (linuxHooks fileOS noUnicode oneCard) noUnicode
                     (freshMachine plainLinux))) eq_refl eq_refl).
Defined.

(** A Linux host without the file, and one with a blank file. *)
Lemma linux_fallback_witness :
  calls (snd (loadInfo (linuxHooks fileOS noUnicode oneCard) noUnicode
                (freshMachine bareLinux)))
  = [CallEnvType; CallMachineID; CallNetInterfaces] /\
  loadInfo (linuxHooks fileOS noUnicode oneCard) noUnicode
    (freshMachine blankLinux)
  = (Some (errorString "empty machine-id file"),
     afterPrimary (freshMachine blankLinux) blankLinux).
Proof.
  split.
  - exact (proj1 (linux_fallback_only_when_file_missing FileSystem fileOS
                    noUnicode oneCard (freshMachine bareLinux) "physical"
                    bareLinux [] (snd (missingFile "/etc/machine-id"))
                    bareLinux eq_refl eq_refl eq_refl)).
  - exact (proj1 (proj2 (linux_fallback_only_when_file_missing FileSystem
                           fileOS noUnicode oneCard (freshMachine blankLinux)
                           "physical" blankLinux
                           (list_byte_of_string lineFeed) None blankLinux
                           eq_refl eq_refl eq_refl))
             eq_refl eq_refl).
Defined.

(** A host on which nothing can be read, and a container. *)
Lemma linux_classifier_witness :
  platform_linux.getEnvironmentType fileOS noUnicode lockedLinux
  = ("physical", lockedLinux) /\
  platform_linux.getEnvironmentType fileOS noUnicode dockerLinux
  = ("docker", dockerLinux).
Proof.
  split.
  - exact (proj1 (linux_classifier_default_and_marker FileSystem fileOS
                    noUnicode lockedLinux)
             _ _ _ _ _ _ _ _ _ _ _ eq_refl eq_refl eq_refl eq_refl).
  - exact (proj2 (linux_classifier_default_and_marker FileSystem fileOS
                    noUnicode dockerLinux) dockerLinux eq_refl).
Defined.

(** A Mac whose sysctl fails. *)
Lemma darwin_classifier_witness :
  platform_darwin.getEnvironmentType commandOS macWithoutUUID
  = ("physical", macWithoutUUID).
Proof.
  exact (proj2 (darwin_classifier_vocabulary _ commandOS macWithoutUUID)
           [] (errorString "exit status 1") macWithoutUUID eq_refl).
Defined.

(** A Mac whose ioreg prints no identifier. *)
Lemma darwin_fallback_witness :
  id_darwin.getMachineID commandOS macWithoutUUID = (("", None), macWithoutUUID) /\
  calls (snd (loadInfo (darwinHooks commandOS macCard) noUnicode
                (freshMachine macWithoutUUID)))
  = [CallEnvType; CallMachineID; CallNetInterfaces].
Proof.
  destruct (darwin_missing_uuid_uses_fallback _ commandOS noUnicode macCard
              (freshMachine macWithoutUUID) "physical" macWithoutUUID
              (list_byte_of_string ioregWithoutUUID) macWithoutUUID
              eq_refl eq_refl eq_refl ltac:(vm_compute; reflexivity))
    as (H1 & H2 & _).
  split; [exact H1 | exact H2].
Defined.

(** The identifier read from the output of ioreg. *)
Lemma darwin_identity_witness :
  string_forallb plainByte uuidOfPlainMac = true /\
  Trim uuidOfPlainMac spaceQuote = uuidOfPlainMac.
Proof.
  destruct (darwin_identity_shape _ commandOS plainMac uuidOfPlainMac None
              plainMac ltac:(vm_compute; reflexivity)) as [_ H].
  destruct (H eq_refl) as (H1 & H2 & _). split; [exact H1 | exact H2].
Defined.
